(** * Frequency_Analysis: [spotify_functions.py]

    A shallow embedding of [spotify_functions.py] and the properties of its
    catalog-search and dataset-cleaning functions.

    The Python module is glue around two libraries, [pandas] and [spotipy].
    The parts of those libraries the module calls are modelled in the modules
    [pd] and [spotipy] below, from their documented behaviour; the functions
    of the module itself are embedded statement by statement in the monad
    [Py], which threads the interpreter state (the object store, standard
    output, the file system) and propagates raised exceptions. *)

From stdpp Require Import base option list strings gmap.
From Stdlib Require Import ZArith Lia.

Open Scope string_scope.
Open Scope Z_scope.
Open Scope list_scope.

(** ** Values *)

(** One cell of a table.  [VNA] is the missing value ([NaN]/[None]).  Numeric
    cells are integers: floating-point cells are outside the model. *)
Inductive cell :=
  | VStr (s : string)
  | VInt (z : Z)
  | VBool (b : bool)
  | VNA.

#[global] Instance cell_eq_dec : EqDecision cell.
Proof. solve_decision. Defined.

(** [pd.isna] on one cell. *)
Definition isna (c : cell) : bool :=
  match c with VNA => true | _ => false end.

(** A row maps column names to cells; a name without an entry reads as a
    missing value. *)
Definition cell_at (r : gmap string cell) (c : string) : cell :=
  default VNA (r !! c).

(** A [pandas.DataFrame]: the ordered column labels and the ordered rows.
    Row labels (the pandas index) are not modelled: a row is identified by
    its position. *)
Record DataFrame := mkDataFrame {
  columns : list string;
  rows : list (gmap string cell)
}.

(** ** Interpreter state, exceptions and the [Py] monad *)

Inductive exn :=
  | KeyError (key : string)
  | TypeError
  | ValueError
  | FileNotFoundError (path : string)
  | OtherError (msg : string).

#[global] Instance exn_eq_dec : EqDecision exn.
Proof. solve_decision. Defined.

(** What a call produces: a value, or a raised exception. *)
Inductive outcome (A : Type) :=
  | Return (a : A)
  | Raise (e : exn).
Arguments Return {A} a.
Arguments Raise {A} e.

(** ** The parts of spotipy the module uses *)

Module spotipy.

(** A playlist summary of a search response. *)
Record playlist := mkPlaylist { id : string; name : string }.

(** A track object of a playlist response; [artists] holds the [name] of
    each artist object. *)
Record track := mkTrack {
  track_name : string;
  track_id : string;
  popularity : Z;
  artists : list string
}.

(** A search response, [{'playlists': {'items': [...]}}]; an item may be
    null. *)
Record search_response := mkSearchResponse {
  playlists_items : list (option playlist)
}.

(** A playlist-tracks response, [{'items': [{'track': ...}, ...]}]; the
    track of an item may be null. *)
Record tracks_response := mkTracksResponse {
  items : list (option track)
}.

(** A client object, given by what its two remote calls answer:
    [sp.search(q, type, limit)] and [sp.playlist_tracks(playlist_id)]. *)
Record Spotify := mkSpotify {
  search : string → string → nat → outcome (option search_response);
  playlist_tracks : string → outcome tracks_response
}.

End spotipy.

(** A printed line is the list of the fragments of its f-string: literal
    text and interpolated values. *)
Inductive frag :=
  | Lit (s : string)
  | Str (s : string)
  | Num (n : Z)
  | Shape (nrows ncols : nat)
  | Exc (e : exn)
  | Len (n : nat)
  | Counts (vc : list (Z * nat)).

(** What [pd.read_csv] makes of an existing file: the parsed table, or the
    exception the parser raises on it. *)
Inductive csv_file :=
  | Parsed (df : DataFrame)
  | Unreadable (e : exn).

(** The interpreter state and its environment: the store of table objects
    (a reference is a position in it), standard output, the files on disk,
    and what [spotipy.Spotify(auth_manager=SpotifyClientCredentials(id,
    secret))] answers for a pair of credentials. *)
Record World := mkWorld {
  heap : list DataFrame;
  stdout : list (list frag);
  files : gmap string csv_file;
  accounts : string → string → outcome spotipy.Spotify
}.

Definition Py (A : Type) : Type := World → outcome A * World.

#[global] Instance Py_ret : MRet Py := λ A a w, (Return a, w).

#[global] Instance Py_bind : MBind Py := λ A B f m w,
  match m w with
  | (Return a, w') => f a w'
  | (Raise e, w') => (Raise e, w')
  end.

Definition raise {A} (e : exn) : Py A := λ w, (Raise e, w).

(** [try: body except <handles>: handler]. *)
Definition try_except {A} (body : Py A) (handles : exn → bool)
    (handler : exn → Py A) : Py A := λ w,
  match body w with
  | (Return a, w') => (Return a, w')
  | (Raise e, w') => if handles e then handler e w' else (Raise e, w')
  end.

(** A call whose answer does not depend on the interpreter state. *)
Definition call {A} (r : outcome A) : Py A := λ w, (r, w).

Definition print (line : list frag) : Py unit := λ w,
  (Return tt, mkWorld (heap w) (stdout w ++ [line]) (files w) (accounts w)).

(** Object store: allocation of a new table, dereference and in-place
    update of an existing one. *)
Definition alloc (df : DataFrame) : Py nat := λ w,
  (Return (length (heap w)), mkWorld (heap w ++ [df]) (stdout w) (files w) (accounts w)).

Definition deref (l : nat) : Py DataFrame := λ w,
  match heap w !! l with
  | Some df => (Return df, w)
  | None => (Raise (OtherError "dangling reference"), w)
  end.

Definition store (l : nat) (df : DataFrame) : Py unit := λ w,
  (Return tt, mkWorld (<[l := df]> (heap w)) (stdout w) (files w) (accounts w)).

(** ** The parts of pandas the module uses *)

Module pd.

(** A row is complete when none of the table's columns is missing in it. *)
Definition complete (cols : list string) (r : gmap string cell) : bool :=
  forallb (λ c, negb (isna (cell_at r c))) cols.

(** The values of a row in the columns of [subset]. *)
Definition key (subset : list string) (r : gmap string cell) : list cell :=
  fmap (cell_at r) subset.

(** [Series]: marks each key that repeats an earlier one ([seen] holds the
    keys met so far). *)
Fixpoint dup_flags (seen : list (list cell)) (ks : list (list cell))
    : list bool :=
  match ks with
  | [] => []
  | k :: ks' => bool_decide (k ∈ seen) :: dup_flags (k :: seen) ks'
  end.

(** Keeps the rows that [dup_flags] does not mark: those whose key has not
    been met before. *)
Fixpoint keep_first (subset : list string) (seen : list (list cell))
    (rs : list (gmap string cell)) : list (gmap string cell) :=
  match rs with
  | [] => []
  | r :: rs' =>
      if bool_decide (key subset r ∈ seen)
      then keep_first subset (key subset r :: seen) rs'
      else r :: keep_first subset (key subset r :: seen) rs'
  end.

(** The first label of [subset] that is not a column, if any. *)
Definition missing_label (cols subset : list string) : option string :=
  List.find (λ c, negb (bool_decide (c ∈ cols))) subset.

(** [pd.read_csv(file_path)]. *)
Definition read_csv (file_path : string) : Py nat := λ w,
  match files w !! file_path with
  | None => (Raise (FileNotFoundError file_path), w)
  | Some (Unreadable e) => (Raise e, w)
  | Some (Parsed df) => alloc df w
  end.

(** [df.shape]. *)
Definition shape (df : nat) : Py (nat * nat) :=
  d ← deref df; mret (length (rows d), length (columns d)).

(** [df.columns]. *)
Definition get_columns (df : nat) : Py (list string) :=
  d ← deref df; mret (columns d).

(** [df.dropna()]: a new table with the complete rows. *)
Definition dropna (df : nat) : Py nat :=
  d ← deref df;
  alloc (mkDataFrame (columns d) (filter (λ r, complete (columns d) r) (rows d))).

(** [df.drop(columns=labels)]: a new table without the columns [labels];
    a label that is not a column raises [KeyError]. *)
Definition drop (df : nat) (labels : list string) : Py nat :=
  d ← deref df;
  match missing_label (columns d) labels with
  | Some c => raise (KeyError c)
  | None =>
      alloc (mkDataFrame
               (filter (λ c, c ∉ labels) (columns d))
               (fmap (λ r, foldr delete r labels) (rows d)))
  end.

(** [df.empty]: one of the two axes has length 0. *)
Definition empty (d : DataFrame) : bool :=
  (length (rows d) =? 0)%nat || (length (columns d) =? 0)%nat.

(** [df.duplicated(subset=subset)].  On an empty table it returns an empty
    series before it looks at [subset]; otherwise a label of [subset] that
    is not a column raises [KeyError]. *)
Definition duplicated (df : nat) (subset : list string) : Py (list bool) :=
  d ← deref df;
  if empty d then mret []
  else
    match missing_label (columns d) subset with
    | Some c => raise (KeyError c)
    | None => mret (dup_flags [] (fmap (key subset) (rows d)))
    end.

(** [Series.sum()] of a boolean series. *)
Definition sum (flags : list bool) : Z :=
  Z.of_nat (length (filter (λ b, b = true) flags)).

(** [df.drop_duplicates(subset=subset, keep='first')]: a new table.  On an
    empty table it returns a copy before it looks at [subset]. *)
Definition drop_duplicates (df : nat) (subset : list string) : Py nat :=
  d ← deref df;
  if empty d then alloc d
  else
    match missing_label (columns d) subset with
    | Some c => raise (KeyError c)
    | None => alloc (mkDataFrame (columns d) (keep_first subset [] (rows d)))
    end.

(** [df[label]]: the column as a series. *)
Definition getitem (df : nat) (label : string) : Py (list cell) :=
  d ← deref df;
  if bool_decide (label ∈ columns d)
  then mret (fmap (λ r, cell_at r label) (rows d))
  else raise (KeyError label).

(** One comparison [c > threshold]: numbers compare, a boolean counts as
    0 or 1, a missing value compares false, text raises [TypeError]. *)
Definition cell_gt (threshold : Z) (c : cell) : outcome bool :=
  match c with
  | VInt z => Return (threshold <? z)
  | VBool b => Return (threshold <? Z.b2z b)
  | VNA => Return false
  | VStr _ => Raise TypeError
  end.

(** [series > threshold], element by element. *)
Fixpoint gt (s : list cell) (threshold : Z) : outcome (list bool) :=
  match s with
  | [] => Return []
  | c :: s' =>
      match cell_gt threshold c with
      | Raise e => Raise e
      | Return b =>
          match gt s' threshold with
          | Raise e => Raise e
          | Return bs => Return (b :: bs)
          end
      end
  end.

(** [series.astype(int)] of a boolean series. *)
Definition astype_int (s : list bool) : list cell :=
  fmap (λ b : bool, VInt (Z.b2z b)) s.

(** [df[label] = values], in place: an existing column is overwritten
    where it stands, a new one is appended after the others.  A series of
    the wrong length raises [ValueError]. *)
Definition setitem (df : nat) (label : string) (values : list cell)
    : Py unit :=
  d ← deref df;
  if bool_decide (length values = length (rows d))
  then
    store df (mkDataFrame
                (if bool_decide (label ∈ columns d) then columns d
                 else columns d ++ [label])
                (zip_with (λ r v, <[label := v]> r) (rows d) values))
  else raise ValueError.

(** The integers of a series, in order. *)
Fixpoint int_values (s : list cell) : list Z :=
  match s with
  | [] => []
  | VInt z :: s' => z :: int_values s'
  | _ :: s' => int_values s'
  end.

(** The distinct values of [zs] in the order of their first occurrence
    ([seen] holds the values met so far). *)
Fixpoint distinct (seen zs : list Z) : list Z :=
  match zs with
  | [] => []
  | z :: zs' =>
      if bool_decide (z ∈ seen) then distinct seen zs'
      else z :: distinct (z :: seen) zs'
  end.

(** Puts [p] before the first entry whose count is not greater. *)
Fixpoint insert_by_count (p : Z * nat) (l : list (Z * nat)) : list (Z * nat) :=
  match l with
  | [] => [p]
  | q :: l' =>
      if (q.2 <=? p.2)%nat then p :: q :: l' else q :: insert_by_count p l'
  end.

(** [series.value_counts()] of a series of integers: each distinct value
    with the number of its occurrences, by descending count, values of equal
    count in the order of their first occurrence. *)
Definition value_counts (s : list cell) : list (Z * nat) :=
  let zs := int_values s in
  foldr insert_by_count []
    (fmap (λ z, (z, length (filter (λ y, y = z) zs))) (distinct [] zs)).

End pd.

(** ** The functions of [spotify_functions.py] *)

(** Functions for API analysis. *)

Definition connect_to_spotify (client_id client_secret : string)
    : Py (option spotipy.Spotify) :=
  try_except
    (sp ← (λ w, call (accounts w client_id client_secret) w);
     print [Lit "Successfully connected to the Spotify API!"];;
     mret (Some sp))
    (λ _, true)
    (λ e, print [Lit "Error connecting to Spotify: "; Exc e];;
          mret None).

(** The [for] loop of [search_playlist]; [Some] is its early [return]. *)
Fixpoint search_playlist_loop (items : list (option spotipy.playlist))
    : Py (option (option string * option string)) :=
  match items with
  | [] => mret None
  | playlist :: rest =>
      match playlist with
      | Some p =>
          let playlist_id := spotipy.id p in
          let playlist_name := spotipy.name p in
          print [Lit "Success! Found playlist: '"; Str playlist_name;
                 Lit "' with ID: "; Str playlist_id];;
          mret (Some (Some playlist_id, Some playlist_name))
      | None => search_playlist_loop rest
      end
  end.

Definition search_playlist (sp : spotipy.Spotify) (query : string)
    (limit : option nat) : Py (option string * option string) :=
  let limit := default 5%nat limit in
  results ← call (spotipy.search sp query "playlist" limit);
  found ← match results with
          | Some res =>
              match spotipy.playlists_items res with
              | [] => mret None
              | items => search_playlist_loop items
              end
          | None => mret None
          end;
  match found with
  | Some r => mret r
  | None =>
      print [Lit "Could not find any valid playlists for the query: '";
             Str query; Lit "'"];;
      mret (None, None)
  end.

(** One entry of [song_data]. *)
Record song_info := mkSongInfo {
  si_name : string;
  si_id : string;
  si_popularity : Z;
  si_artists : list string
}.

(** The [for] loop of [get_playlist_tracks], appending to [song_data]. *)
Fixpoint get_playlist_tracks_loop (items : list (option spotipy.track))
    (song_data : list song_info) : list song_info :=
  match items with
  | [] => song_data
  | track :: rest =>
      match track with
      | Some t =>
          get_playlist_tracks_loop rest
            (song_data ++ [mkSongInfo (spotipy.track_name t) (spotipy.track_id t)
                             (spotipy.popularity t) (spotipy.artists t)])
      | None => get_playlist_tracks_loop rest song_data
      end
  end.

Definition get_playlist_tracks (sp : spotipy.Spotify) (playlist_id : string)
    : Py (list song_info) :=
  results ← call (spotipy.playlist_tracks sp playlist_id);
  let song_data := get_playlist_tracks_loop (spotipy.items results) [] in
  print [Lit "Collected data for "; Len (length song_data); Lit " songs!"];;
  mret song_data.

(** [create_dataframe], a bare call of the [pd.DataFrame] constructor on
    [song_data], is not embedded: no property below concerns it. *)

(** Functions for dataset analysis. *)

Definition load_spotify_dataset (file_path : string) : Py (option nat) :=
  try_except
    (df ← pd.read_csv file_path;
     shape ← pd.shape df;
     print [Lit "Dataset '"; Str file_path; Lit "' loaded successfully with ";
            Len shape.1; Lit " rows."];;
     mret (Some df))
    (λ e, match e with FileNotFoundError _ => true | _ => false end)
    (λ _, print [Lit "Error: The file '"; Str file_path;
                 Lit "' was not found."];;
          mret None).

Definition clean_data (df : nat) : Py nat :=
  shape ← pd.shape df;
  print [Lit "Original shape: "; Shape shape.1 shape.2];;
  df_cleaned ← pd.dropna df;
  shape ← pd.shape df_cleaned;
  print [Lit "Shape after dropping NAs: "; Shape shape.1 shape.2];;
  cols ← pd.get_columns df_cleaned;
  df_cleaned ← (if bool_decide ("index" ∈ cols)
                then
                  d ← pd.drop df_cleaned ["index"];
                  print [Lit "Dropped the 'index' column."];;
                  mret d
                else mret df_cleaned);
  flags ← pd.duplicated df_cleaned ["track_id"];
  let num_duplicates := pd.sum flags in
  df_cleaned ← (if 0 <? num_duplicates
                then
                  print [Lit "Found "; Num num_duplicates;
                         Lit " duplicate tracks. Removing them."];;
                  pd.drop_duplicates df_cleaned ["track_id"]
                else mret df_cleaned);
  shape ← pd.shape df_cleaned;
  print [Lit "Final shape after cleaning: "; Shape shape.1 shape.2];;
  mret df_cleaned.

Definition define_hit_songs (df : nat) (threshold : option Z) : Py nat :=
  let threshold := default 87 threshold in
  pop ← pd.getitem df "popularity";
  mask ← call (pd.gt pop threshold);
  pd.setitem df "is_hit" (pd.astype_int mask);;
  print [Lit "Created 'is_hit' column with a popularity threshold of > ";
         Num threshold; Lit "."];;
  print [Lit (String (Ascii.ascii_of_nat 10) "Distribution of Hits (1) vs. Non-Hits (0):")];;
  hits ← pd.getitem df "is_hit";
  print [Counts (pd.value_counts hits)];;
  mret df.

(** ** The passes of [clean_data] as functions on tables *)

(** Completeness pass: the rows without a missing value. *)
Definition completeness_pass (T : DataFrame) : DataFrame :=
  mkDataFrame (columns T) (filter (λ r, pd.complete (columns T) r) (rows T)).

(** Schema-hygiene pass: without the column [index], when there is one. *)
Definition schema_hygiene_pass (T : DataFrame) : DataFrame :=
  if bool_decide ("index" ∈ columns T)
  then mkDataFrame (filter (λ c, c ∉ ["index"]) (columns T))
                   (fmap (λ r, foldr delete r ["index"]) (rows T))
  else T.

(** Deduplication pass: the first row of each [track_id]. *)
Definition deduplication_pass (T : DataFrame) : DataFrame :=
  mkDataFrame (columns T) (pd.keep_first ["track_id"] [] (rows T)).

(** The number of rows the deduplication pass discards. *)
Definition duplicate_count (T : DataFrame) : nat :=
  (length (rows T) - length (rows (deduplication_pass T)))%nat.

(** The lines [clean_data] prints on table [T]. *)
Definition clean_report (T : DataFrame) : list (list frag) :=
  let T1 := completeness_pass T in
  let T2 := schema_hygiene_pass T1 in
  let T3 := deduplication_pass T2 in
  [ [Lit "Original shape: "; Shape (length (rows T)) (length (columns T))];
    [Lit "Shape after dropping NAs: ";
     Shape (length (rows T1)) (length (columns T1))] ]
  ++ (if bool_decide ("index" ∈ columns T)
      then [ [Lit "Dropped the 'index' column."] ] else [])
  ++ (if bool_decide (0 < duplicate_count T2)%nat
      then [ [Lit "Found "; Num (Z.of_nat (duplicate_count T2));
              Lit " duplicate tracks. Removing them."] ]
      else [])
  ++ [ [Lit "Final shape after cleaning: ";
        Shape (length (rows T3)) (length (columns T3))] ].

(** ** The post-clean conditions *)

Definition track_id_of (r : gmap string cell) : cell := cell_at r "track_id".

(** A row as the cleaned table holds it: without its [index] cell when the
    input table [T] has that column. *)
Definition without_index (T : DataFrame) (r : gmap string cell)
    : gmap string cell :=
  if bool_decide ("index" ∈ columns T) then delete "index" r else r.

(** No row has a missing value in any column. *)
Definition no_missing (T : DataFrame) : Prop :=
  ∀ r c, r ∈ rows T → c ∈ columns T → cell_at r c ≠ VNA.

(** No two rows share a [track_id]. *)
Definition unique_track_ids (T : DataFrame) : Prop :=
  NoDup (track_id_of <$> rows T).

(** Every row of [res] is the first row of [T], in [T]'s row order, with
    its [track_id]. *)
Definition keeps_first_occurrence (T res : DataFrame) : Prop :=
  ∀ r', r' ∈ rows res →
    ∃ pre r post, rows T = pre ++ r :: post ∧ r' = without_index T r ∧
      ∀ r2, r2 ∈ pre → track_id_of r2 ≠ track_id_of r.

(** Every row of [res] is the first row without missing values of [T], in
    [T]'s row order, with its [track_id]. *)
Definition keeps_first_complete_occurrence (T res : DataFrame) : Prop :=
  ∀ r', r' ∈ rows res →
    ∃ pre r post, rows T = pre ++ r :: post ∧ r' = without_index T r ∧
      pd.complete (columns T) r ∧
      ∀ r2, r2 ∈ pre → pd.complete (columns T) r2 →
            track_id_of r2 ≠ track_id_of r.

(** The three post-clean conditions, the third with first occurrences taken
    among all the rows of the input. *)
Definition post_clean_first_of_all (T res : DataFrame) : Prop :=
  no_missing res ∧ ("index" ∉ columns res) ∧ unique_track_ids res ∧
  keeps_first_occurrence T res.

(** ** Labelled tables and printed lines *)

(** The table [df['is_hit'] = mask.astype(int)] leaves behind. *)
Definition labelled (T : DataFrame) (mask : list bool) : DataFrame :=
  mkDataFrame
    (if bool_decide ("is_hit" ∈ columns T) then columns T
     else columns T ++ ["is_hit"])
    (zip_with (λ r v, <["is_hit" := v]> r) (rows T) (pd.astype_int mask)).

(** The three lines [define_hit_songs] prints. *)
Definition hit_report (T' : DataFrame) (threshold : Z) : list (list frag) :=
  [ [Lit "Created 'is_hit' column with a popularity threshold of > ";
     Num threshold; Lit "."];
    [Lit (String (Ascii.ascii_of_nat 10) "Distribution of Hits (1) vs. Non-Hits (0):")];
    [Counts (pd.value_counts (fmap (λ r, cell_at r "is_hit") (rows T')))] ].

(** The three passes in the order [clean_data] applies them. *)
Definition cleaned (T : DataFrame) : DataFrame :=
  deduplication_pass (schema_hygiene_pass (completeness_pass T)).

(** The lines [search_playlist] prints. *)
Definition found_line (p : spotipy.playlist) : list frag :=
  [Lit "Success! Found playlist: '"; Str (spotipy.name p);
   Lit "' with ID: "; Str (spotipy.id p)].

Definition not_found_line (query : string) : list frag :=
  [Lit "Could not find any valid playlists for the query: '"; Str query;
   Lit "'"].

(** The state after one more printed line. *)
Definition say (line : list frag) (w : World) : World :=
  mkWorld (heap w) (stdout w ++ [line]) (files w) (accounts w).

(** The entry [get_playlist_tracks] makes of one track object. *)
Definition song_info_of (t : spotipy.track) : song_info :=
  mkSongInfo (spotipy.track_name t) (spotipy.track_id t)
             (spotipy.popularity t) (spotipy.artists t).

(** ** Example data *)

Definition row_of (l : list (string * cell)) : gmap string cell :=
  list_to_map l.

(** A cleaned table with popularities above, at and below 87. *)
Definition example_cleaned : DataFrame :=
  mkDataFrame ["track_id"; "popularity"]
    [ row_of [("track_id", VStr "a"); ("popularity", VInt 90)];
      row_of [("track_id", VStr "b"); ("popularity", VInt 87)];
      row_of [("track_id", VStr "c"); ("popularity", VInt 50)] ].

(** An interpreter state holding [df] as its only object, with no files and
    no reachable catalog service. *)
Definition world_of (df : DataFrame) : World :=
  mkWorld [df] [] ∅ (λ _ _, Raise (OtherError "connection refused")).

(** Two rows with the same [track_id], the first with a missing
    popularity. *)
Definition example_incomplete : DataFrame :=
  mkDataFrame ["track_id"; "popularity"]
    [ row_of [("track_id", VStr "a"); ("popularity", VNA)];
      row_of [("track_id", VStr "a"); ("popularity", VInt 50)] ].

(** The table of the cleaning scenario. *)
Definition example_raw : DataFrame :=
  mkDataFrame ["track_id"; "popularity"; "index"]
    [ row_of [("track_id", VStr "a"); ("popularity", VInt 90); ("index", VInt 0)];
      row_of [("track_id", VStr "a"); ("popularity", VInt 50); ("index", VInt 1)];
      row_of [("track_id", VStr "b"); ("popularity", VInt 95); ("index", VInt 2)] ].

(** A table without a [track_id] column. *)
Definition example_no_track_id : DataFrame :=
  mkDataFrame ["name"; "popularity"]
    [ row_of [("name", VStr "x"); ("popularity", VInt 90)] ].

(** A client whose search answers with [items] and whose playlists are
    empty, and one that cannot reach the service. *)
Definition example_client (items : list (option spotipy.playlist))
    : spotipy.Spotify :=
  spotipy.mkSpotify
    (λ _ _ _, Return (Some (spotipy.mkSearchResponse items)))
    (λ _, Return (spotipy.mkTracksResponse [])).

Definition offline_client : spotipy.Spotify :=
  spotipy.mkSpotify
    (λ _ _ _, Raise (OtherError "connection refused"))
    (λ _, Raise (OtherError "connection refused")).

(** A playlist answer with a null track between two tracks. *)
Definition example_tracks : list (option spotipy.track) :=
  [ Some (spotipy.mkTrack "One" "t1" 90 ["A"; "B"]);
    None;
    Some (spotipy.mkTrack "Two" "t2" 40 ["C"]) ].

Definition example_tracks_client : spotipy.Spotify :=
  spotipy.mkSpotify
    (λ _ _ _, Return None)
    (λ _, Return (spotipy.mkTracksResponse example_tracks)).

(** A state with the file [tracks.csv] holding [df] and the file
    [broken.csv] on which the parser fails. *)
Definition world_with_files (df : DataFrame) : World :=
  mkWorld [] []
    (<["tracks.csv" := Parsed df]>
       (<["broken.csv" := Unreadable (OtherError "ParserError")]> ∅))
    (λ _ _, Raise (OtherError "connection refused")).

(** A table whose second popularity cell holds text. *)
Definition example_text_popularity : DataFrame :=
  mkDataFrame ["track_id"; "popularity"]
    [ row_of [("track_id", VStr "a"); ("popularity", VInt 90)];
      row_of [("track_id", VStr "b"); ("popularity", VStr "high")] ].

(** A state whose file [raw.csv] holds the table of the cleaning
    scenario. *)
Definition world_with_raw : World :=
  mkWorld [] [] (<["raw.csv" := Parsed example_raw]> ∅)
    (λ _ _, Raise (OtherError "connection refused")).

(** A table without a [track_id] column whose only row has a missing
    value. *)
Definition example_emptied : DataFrame :=
  mkDataFrame ["name"; "popularity"]
    [ row_of [("name", VStr "x"); ("popularity", VNA)] ].

(** * Properties *)

(** ** Running the monad *)

Lemma bind_return {A B} (m : Py A) (k : A → Py B) w a w' :
  m w = (Return a, w') → (m ≫= k) w = k a w'.
Proof. intros H. unfold mbind, Py_bind. by rewrite H. Qed.

Lemma bind_raise {A B} (m : Py A) (k : A → Py B) w e w' :
  m w = (Raise e, w') → (m ≫= k) w = (Raise e, w').
Proof. intros H. unfold mbind, Py_bind. by rewrite H. Qed.

Lemma deref_run l w d : heap w !! l = Some d → deref l w = (Return d, w).
Proof. intros H. unfold deref. by rewrite H. Qed.

Lemma world_eta w : mkWorld (heap w) (stdout w) (files w) (accounts w) = w.
Proof. by destruct w. Qed.

(** ** [define_hit_songs] *)

Lemma gt_length s k mask : pd.gt s k = Return mask → length mask = length s.
Proof.
  revert mask. induction s as [|c s IH]; intros mask; simpl.
  - by intros [= <-].
  - destruct (pd.cell_gt k c); [|done].
    destruct (pd.gt s k); [|done].
    intros [= <-]. simpl. f_equal. by apply IH.
Qed.

Lemma gt_Forall2 s k mask :
  pd.gt s k = Return mask ↔ Forall2 (λ c b, pd.cell_gt k c = Return b) s mask.
Proof.
  revert mask. induction s as [|c s IH]; intros mask; simpl.
  - split.
    + intros [= <-]. constructor.
    + intros H. by inversion H.
  - split.
    + destruct (pd.cell_gt k c) eqn:Ec; [|done].
      destruct (pd.gt s k) eqn:Es; [|done].
      intros [= <-]. constructor; [done|]. by apply IH.
    + intros H. inversion H as [|? b ? bs Hc Hs]; subst.
      rewrite Hc. apply IH in Hs. by rewrite Hs.
Qed.

Lemma gt_total s k :
  Forall (λ c, ∀ t, c ≠ VStr t) s → ∃ mask, pd.gt s k = Return mask.
Proof.
  induction 1 as [|c s Hc _ [mask IH]]; simpl; [by eexists|].
  rewrite IH. destruct c; simpl; try by eexists.
  by destruct (Hc s0).
Qed.

Lemma define_hit_songs_unfold l k w :
  define_hit_songs l k w =
  match heap w !! l with
  | None => (Raise (OtherError "dangling reference"), w)
  | Some T =>
      if bool_decide ("popularity" ∈ columns T) then
        match pd.gt (fmap (λ r, cell_at r "popularity") (rows T)) (default 87 k) with
        | Raise e => (Raise e, w)
        | Return mask =>
            (Return l,
             mkWorld (<[l := labelled T mask]> (heap w))
                     (stdout w ++ hit_report (labelled T mask) (default 87 k))
                     (files w) (accounts w))
        end
      else (Raise (KeyError "popularity"), w)
  end.
Proof.
  unfold define_hit_songs, pd.getitem, pd.setitem, deref, call, print, store,
    raise, mbind, Py_bind, mret, Py_ret.
  destruct (heap w !! l) as [T|] eqn:Hl; [|done].
  case_bool_decide as Hpop; [|done].
  destruct (pd.gt _ _) as [mask|e] eqn:Hgt; [|done].
  assert (length (pd.astype_int mask) = length (rows T)) as Hlen.
  { unfold pd.astype_int. rewrite length_fmap, (gt_length _ _ _ Hgt).
    by rewrite length_fmap. }
  rewrite Hl.
  case_bool_decide; [|done]. cbn [heap stdout files accounts].
  rewrite list_lookup_insert_eq by (by eapply lookup_lt_Some).
  cbn [columns rows].
  case_bool_decide as Hin.
  2:{ destruct Hin. case_bool_decide; [done|]. apply elem_of_app. right. by left. }
  unfold labelled, hit_report. cbn [rows].
  cbn [heap stdout files accounts]. by rewrite <- !app_assoc.
Qed.


(** What [define_hit_songs] did when it returns. *)
Lemma define_hit_songs_inv l k w r w' :
  define_hit_songs l k w = (Return r, w') →
  ∃ T mask,
    heap w !! l = Some T ∧ "popularity" ∈ columns T ∧
    pd.gt (fmap (λ r, cell_at r "popularity") (rows T)) (default 87 k)
      = Return mask ∧
    r = l ∧ heap w' = <[l := labelled T mask]> (heap w) ∧
    stdout w' = stdout w ++ hit_report (labelled T mask) (default 87 k).
Proof.
  rewrite define_hit_songs_unfold.
  destruct (heap w !! l) as [T|]; [|done].
  case_bool_decide; [|done].
  destruct (pd.gt _ _) as [mask|] eqn:Hgt; [|done].
  intros [= <- <-]. by exists T, mask.
Qed.

(** Row by row, the labelled table is the old one with [is_hit] set to the
    outcome of the comparison. *)
Lemma labelled_rows T k mask :
  pd.gt (fmap (λ r, cell_at r "popularity") (rows T)) k = Return mask →
  Forall2 (λ r r', ∃ b, pd.cell_gt k (cell_at r "popularity") = Return b ∧
                        r' = <["is_hit" := VInt (Z.b2z b)]> r)
          (rows T) (rows (labelled T mask)).
Proof.
  unfold labelled. cbn [rows]. generalize (rows T) as rs. intros rs.
  revert mask. induction rs as [|r rs IH]; intros mask; simpl.
  - intros [= <-]. constructor.
  - destruct (pd.cell_gt k _) as [b|] eqn:Hb; [|done].
    destruct (pd.gt _ _) as [bs|] eqn:Hbs; [|done].
    intros [= <-]. simpl. constructor; [by exists b|]. by apply IH.
Qed.

Lemma cell_at_insert r c v : cell_at (<[c := v]> r) c = v.
Proof. unfold cell_at. by rewrite lookup_insert_eq. Qed.

Lemma cell_at_insert_ne r c c' v :
  c ≠ c' → cell_at (<[c := v]> r) c' = cell_at r c'.
Proof. intros H. unfold cell_at. by rewrite lookup_insert_ne. Qed.

Lemma labelled_popularity T mask :
  length mask = length (rows T) →
  fmap (λ r, cell_at r "popularity") (rows (labelled T mask))
  = fmap (λ r, cell_at r "popularity") (rows T).
Proof.
  unfold labelled. cbn [rows]. generalize (rows T) as rs. intros rs.
  revert mask. induction rs as [|r rs IH]; intros [|b bs]; simpl; try done.
  intros [= Hlen]. rewrite cell_at_insert_ne by done. f_equal. by apply IH.
Qed.

Lemma is_hit_in_labelled T mask : "is_hit" ∈ columns (labelled T mask).
Proof.
  unfold labelled. cbn [columns]. case_bool_decide; [done|].
  apply elem_of_app. right. by left.
Qed.

Lemma labelled_labelled T mask : labelled (labelled T mask) mask = labelled T mask.
Proof.
  unfold labelled at 1.
  rewrite (bool_decide_true _ (is_hit_in_labelled T mask)).
  destruct (labelled T mask) as [cols rs] eqn:E. cbn [columns rows]. f_equal.
  injection E as _ <-.
  generalize (rows T) as rs. generalize (pd.astype_int mask) as vs.
  intros vs rs. revert vs.
  induction rs as [|r rs IH]; intros [|v vs]; simpl; try done.
  rewrite insert_insert_eq. f_equal. apply IH.
Qed.



(** C7.  Labelling an already labelled table again, with the same
    threshold, returns the same object and leaves every table of the store
    as the first labelling made it: [is_hit] is overwritten, not added a
    second time. *)
Theorem define_hit_songs_idempotent (w w1 : World) (l r : nat) (k : option Z) :
  define_hit_songs l k w = (Return r, w1) →
  ∃ w2, define_hit_songs r k w1 = (Return r, w2) ∧ heap w2 = heap w1.
Proof.
  intros Hrun.
  destruct (define_hit_songs_inv _ _ _ _ _ Hrun)
    as (T & mask & Hl & Hpop & Hgt & -> & Hheap & _).
  assert (heap w1 !! l = Some (labelled T mask)) as Hl1.
  { rewrite Hheap. apply list_lookup_insert_eq. by eapply lookup_lt_Some. }
  assert (length mask = length (rows T)) as Hlen.
  { rewrite (gt_length _ _ _ Hgt). by rewrite length_fmap. }
  rewrite define_hit_songs_unfold, Hl1.
  rewrite bool_decide_true.
  2:{ unfold labelled. cbn [columns]. case_bool_decide; [done|].
      apply elem_of_app. by left. }
  rewrite (labelled_popularity _ _ Hlen), Hgt.
  eexists. split; [done|]. cbn [heap].
  by rewrite labelled_labelled, Hheap, list_insert_insert_eq.
Qed.

Lemma define_hit_songs_idempotent_witness :
  ∃ w1 w2,
    define_hit_songs 0%nat (Some 87) (world_of example_cleaned)
      = (Return 0%nat, w1) ∧
    define_hit_songs 0%nat (Some 87) w1 = (Return 0%nat, w2) ∧
    heap w2 = heap w1.
Proof.
  eexists.
  destruct (define_hit_songs_idempotent (world_of example_cleaned) _ 0%nat
              0%nat (Some 87) eq_refl) as (w2 & H2 & Hh).
  exists w2. split; [reflexivity|]. split; [exact H2|exact Hh].
Defined.

(** C8.  When [define_hit_songs] returns, it returns its argument; the
    table has the same number of rows, each row at its old position with
    every cell other than [is_hit] unchanged; the columns are the old ones,
    with [is_hit] appended when it was not yet there; and no other object of
    the store changes. *)
Theorem define_hit_songs_frame (w w' : World) (l r : nat) (k : option Z)
    (T : DataFrame) :
  heap w !! l = Some T →
  define_hit_songs l k w = (Return r, w') →
  r = l ∧
  ∃ T', heap w' !! l = Some T' ∧
    length (rows T') = length (rows T) ∧
    (∀ i row, rows T !! i = Some row →
       ∃ row', rows T' !! i = Some row' ∧
         ∀ c, c ≠ "is_hit" → row' !! c = row !! c) ∧
    (("is_hit" ∈ columns T ∧ columns T' = columns T) ∨
     (("is_hit" ∉ columns T) ∧ columns T' = (columns T ++ ["is_hit"]))) ∧
    (∀ l2, l2 ≠ l → heap w' !! l2 = heap w !! l2).
Proof.
  intros Hl Hrun.
  destruct (define_hit_songs_inv _ _ _ _ _ Hrun)
    as (T0 & mask & Hl0 & _ & Hgt & -> & Hheap & _).
  assert (T0 = T) as -> by congruence.
  split; [done|]. exists (labelled T mask).
  pose proof (labelled_rows _ _ _ Hgt) as HF.
  split; [|split; [|split; [|split]]].
  - rewrite Hheap. apply list_lookup_insert_eq. by eapply lookup_lt_Some.
  - symmetry. by eapply Forall2_length.
  - intros i row Hi.
    destruct (Forall2_lookup_l _ _ _ _ _ HF Hi) as (row' & Hi' & b & _ & ->).
    exists (<["is_hit" := VInt (Z.b2z b)]> row). split; [done|].
    intros c Hc. by rewrite lookup_insert_ne.
  - unfold labelled. cbn [columns]. case_bool_decide; [by left|by right].
  - intros l2 Hl2. rewrite Hheap. by apply list_lookup_insert_ne.
Qed.

Lemma define_hit_songs_frame_witness :
  ∃ T', heap (snd (define_hit_songs 0%nat None (world_of example_cleaned)))
          !! 0%nat = Some T' ∧
        length (rows T') = length (rows example_cleaned).
Proof.
  destruct (define_hit_songs_frame (world_of example_cleaned) _ 0%nat _ None
              example_cleaned eq_refl eq_refl)
    as (_ & T' & HT' & Hlen & _).
  exists T'. split; [exact HT'|exact Hlen].
Defined.

(** ** [clean_data] *)

Lemma print_run line w :
  print line w
  = (Return tt, mkWorld (heap w) (stdout w ++ [line]) (files w) (accounts w)).
Proof. done. Qed.

Lemma shape_run l w d :
  heap w !! l = Some d →
  pd.shape l w = (Return (length (rows d), length (columns d)), w).
Proof. intros H. unfold pd.shape. by rewrite (bind_return _ _ _ _ _ (deref_run _ _ _ H)). Qed.

Lemma get_columns_run l w d :
  heap w !! l = Some d → pd.get_columns l w = (Return (columns d), w).
Proof.
  intros H. unfold pd.get_columns.
  by rewrite (bind_return _ _ _ _ _ (deref_run _ _ _ H)).
Qed.

Lemma dropna_run l w d :
  heap w !! l = Some d →
  pd.dropna l w
  = (Return (length (heap w)),
     mkWorld (heap w ++ [completeness_pass d]) (stdout w) (files w) (accounts w)).
Proof.
  intros H. unfold pd.dropna.
  by rewrite (bind_return _ _ _ _ _ (deref_run _ _ _ H)).
Qed.

Lemma drop_index_run l w d :
  heap w !! l = Some d → "index" ∈ columns d →
  pd.drop l ["index"] w
  = (Return (length (heap w)),
     mkWorld (heap w ++ [schema_hygiene_pass d]) (stdout w) (files w) (accounts w)).
Proof.
  intros H Hin. unfold pd.drop.
  rewrite (bind_return _ _ _ _ _ (deref_run _ _ _ H)).
  unfold pd.missing_label, schema_hygiene_pass. simpl.
  by rewrite !(bool_decide_true _ Hin).
Qed.

Lemma empty_spec d : pd.empty d = true ↔ rows d = [] ∨ columns d = [].
Proof.
  unfold pd.empty. rewrite orb_true_iff, !Nat.eqb_eq.
  split; (intros [H|H]; [left|right]).
  - by destruct (rows d).
  - by destruct (columns d).
  - by rewrite H.
  - by rewrite H.
Qed.

Lemma empty_no_rows d c : pd.empty d = true → c ∈ columns d → rows d = [].
Proof.
  intros [H|H]%empty_spec Hc; [done|]. rewrite H in Hc.
  by apply elem_of_nil in Hc.
Qed.

Lemma duplicated_run l w d :
  heap w !! l = Some d → "track_id" ∈ columns d →
  pd.duplicated l ["track_id"] w
  = (Return (pd.dup_flags [] (fmap (pd.key ["track_id"]) (rows d))), w).
Proof.
  intros H Hin. unfold pd.duplicated.
  rewrite (bind_return _ _ _ _ _ (deref_run _ _ _ H)).
  destruct (pd.empty d) eqn:He.
  - by rewrite (empty_no_rows d _ He Hin).
  - unfold pd.missing_label. simpl. by rewrite (bool_decide_true _ Hin).
Qed.

Lemma duplicated_raise l w d :
  heap w !! l = Some d → pd.empty d = false → "track_id" ∉ columns d →
  pd.duplicated l ["track_id"] w = (Raise (KeyError "track_id"), w).
Proof.
  intros H He Hin. unfold pd.duplicated.
  rewrite (bind_return _ _ _ _ _ (deref_run _ _ _ H)). rewrite He.
  unfold pd.missing_label. simpl. by rewrite (bool_decide_false _ Hin).
Qed.

Lemma duplicated_empty l w d subset :
  heap w !! l = Some d → pd.empty d = true →
  pd.duplicated l subset w = (Return [], w).
Proof.
  intros H He. unfold pd.duplicated.
  rewrite (bind_return _ _ _ _ _ (deref_run _ _ _ H)). by rewrite He.
Qed.

Lemma drop_duplicates_run l w d :
  heap w !! l = Some d → "track_id" ∈ columns d →
  pd.drop_duplicates l ["track_id"] w
  = (Return (length (heap w)),
     mkWorld (heap w ++ [deduplication_pass d]) (stdout w) (files w) (accounts w)).
Proof.
  intros H Hin. unfold pd.drop_duplicates.
  rewrite (bind_return _ _ _ _ _ (deref_run _ _ _ H)).
  destruct (pd.empty d) eqn:He.
  - unfold deduplication_pass. rewrite (empty_no_rows d _ He Hin). simpl.
    pose proof (empty_no_rows d _ He Hin) as Hrows.
    destruct d as [cols rs]. simpl in Hrows. by subst rs.
  - unfold pd.missing_label. simpl. by rewrite (bool_decide_true _ Hin).
Qed.

(** The flagged rows are the ones [keep_first] discards. *)
Lemma dup_flags_keep_first subset seen rs :
  (Z.to_nat (pd.sum (pd.dup_flags seen (fmap (pd.key subset) rs)))
   + length (pd.keep_first subset seen rs) = length rs)%nat.
Proof.
  unfold pd.sum. rewrite Nat2Z.id.
  revert seen. induction rs as [|r rs IH]; intros seen; simpl; [done|].
  case_bool_decide.
  - rewrite filter_cons_True by done. simpl. f_equal. apply IH.
  - rewrite filter_cons_False by done. simpl.
    rewrite Nat.add_succ_r. f_equal. apply IH.
Qed.

Lemma sum_nonneg flags : 0 ≤ pd.sum flags.
Proof. unfold pd.sum. lia. Qed.

Lemma keep_first_length subset seen rs :
  (length (pd.keep_first subset seen rs) ≤ length rs)%nat.
Proof. pose proof (dup_flags_keep_first subset seen rs). lia. Qed.

Lemma keep_first_all subset seen rs :
  length (pd.keep_first subset seen rs) = length rs →
  pd.keep_first subset seen rs = rs.
Proof.
  revert seen. induction rs as [|r rs IH]; intros seen; simpl; [done|].
  case_bool_decide.
  - pose proof (keep_first_length subset (pd.key subset r :: seen) rs). lia.
  - simpl. intros [= Hlen]. f_equal. by apply IH.
Qed.

(** [num_duplicates] is the number of rows deduplication discards. *)
Lemma num_duplicates_count T :
  pd.sum (pd.dup_flags [] (fmap (pd.key ["track_id"]) (rows T)))
  = Z.of_nat (duplicate_count T).
Proof.
  unfold duplicate_count, deduplication_pass. cbn [rows].
  pose proof (dup_flags_keep_first ["track_id"] [] (rows T)).
  pose proof (sum_nonneg (pd.dup_flags [] (fmap (pd.key ["track_id"]) (rows T)))).
  lia.
Qed.

Lemma deduplication_pass_id T :
  duplicate_count T = 0%nat → deduplication_pass T = T.
Proof.
  unfold duplicate_count, deduplication_pass. cbn [rows]. intros H.
  pose proof (keep_first_length ["track_id"] [] (rows T)).
  rewrite keep_first_all by lia. by destruct T.
Qed.

Lemma track_id_in_hygiene T :
  "track_id" ∈ columns T → "track_id" ∈ columns (schema_hygiene_pass T).
Proof.
  intros H. unfold schema_hygiene_pass. case_bool_decide; [|done].
  cbn [columns]. apply list_elem_of_filter. split; [|done].
  rewrite list_elem_of_singleton. done.
Qed.

Ltac run_with H := rewrite (bind_return _ _ _ _ _ H); cbn [fst snd heap stdout files accounts].
Ltac run_print :=
  erewrite bind_return by apply print_run;
  cbn [fst snd heap stdout files accounts].

(** The deduplication step of [clean_data], from the table [df_cleaned]
    reached after the first two passes. *)
Lemma clean_data_dedup_run df_cleaned w T :
  heap w !! df_cleaned = Some T → "track_id" ∈ columns T →
  ∃ l' ext,
    (flags ← pd.duplicated df_cleaned ["track_id"];
     let num_duplicates := pd.sum flags in
     df_cleaned ← (if 0 <? num_duplicates
                   then
                     print [Lit "Found "; Num num_duplicates;
                            Lit " duplicate tracks. Removing them."];;
                     pd.drop_duplicates df_cleaned ["track_id"]
                   else mret df_cleaned);
     shape ← pd.shape df_cleaned;
     print [Lit "Final shape after cleaning: "; Shape shape.1 shape.2];;
     mret df_cleaned) w
    = (Return l',
       mkWorld (heap w ++ ext)
         (stdout w
          ++ (if bool_decide (0 < duplicate_count T)%nat
              then [ [Lit "Found "; Num (Z.of_nat (duplicate_count T));
                      Lit " duplicate tracks. Removing them."] ]
              else [])
          ++ [ [Lit "Final shape after cleaning: ";
                Shape (length (rows (deduplication_pass T)))
                      (length (columns (deduplication_pass T)))] ])
         (files w) (accounts w)) ∧
    (df_cleaned ≤ l')%nat ∧
    (heap w ++ ext) !! l' = Some (deduplication_pass T).
Proof.
  intros Hl Htid.
  run_with (duplicated_run _ _ _ Hl Htid).
  rewrite num_duplicates_count.
  destruct (decide (0 < duplicate_count T)%nat) as [Hn|Hn].
  - rewrite (bool_decide_true _ Hn).
    assert ((0 <? Z.of_nat (duplicate_count T)) = true) as -> by (apply Z.ltb_lt; lia).
    exists (length (heap w)), [deduplication_pass T].
    erewrite bind_return.
    2:{ erewrite bind_return by apply print_run.
        apply drop_duplicates_run; cbn [heap]; done. }
    erewrite bind_return.
    2:{ apply (shape_run _ _ (deduplication_pass T)). cbn [heap].
        by apply list_lookup_middle. }
    cbn [fst snd]. run_print.
    split; [|split].
    + unfold mret, Py_ret. by rewrite <- !app_assoc.
    + apply lookup_lt_Some in Hl. lia.
    + by apply list_lookup_middle.
  - rewrite (bool_decide_false _ Hn).
    assert ((0 <? Z.of_nat (duplicate_count T)) = false) as -> by (apply Z.ltb_ge; lia).
    exists df_cleaned, [].
    rewrite deduplication_pass_id by lia.
    erewrite bind_return by reflexivity.
    run_with (shape_run _ _ _ Hl). run_print.
    split; [|split].
    + unfold mret, Py_ret. by rewrite app_nil_r.
    + done.
    + by rewrite app_nil_r.
Qed.

(** What [clean_data] does on a table that has a [track_id] column: it
    allocates the new tables [ext], prints [clean_report] and returns a new
    reference to the three passes of the table. *)
Lemma clean_data_run l w T :
  heap w !! l = Some T → "track_id" ∈ columns T →
  ∃ l' ext,
    clean_data l w
    = (Return l',
       mkWorld (heap w ++ ext) (stdout w ++ clean_report T) (files w) (accounts w)) ∧
    (length (heap w) ≤ l')%nat ∧
    (heap w ++ ext) !! l'
    = Some (deduplication_pass (schema_hygiene_pass (completeness_pass T))).
Proof.
  intros Hl Htid. unfold clean_data, clean_report.
  set (T1 := completeness_pass T).
  set (T2 := schema_hygiene_pass T1).
  set (T3 := deduplication_pass T2).
  run_with (shape_run _ _ _ Hl). run_print.
  erewrite bind_return; [|by apply dropna_run]. cbn [heap].
  erewrite bind_return.
  2:{ apply (shape_run _ _ T1). cbn [heap]. by apply list_lookup_middle. }
  cbn [fst snd]. run_print.
  erewrite bind_return.
  2:{ apply (get_columns_run _ _ T1). cbn [heap]. by apply list_lookup_middle. }
  assert ((heap w ++ [T1]) !! length (heap w) = Some T1) as Hl1
    by (by apply list_lookup_middle).
  destruct (decide ("index" ∈ columns T)) as [Hidx|Hidx].
  - rewrite !(bool_decide_true _ Hidx).
    erewrite bind_return.
    2:{ erewrite bind_return by (by apply (drop_index_run _ _ T1)).
        erewrite bind_return by apply print_run. reflexivity. }
    cbn [heap stdout files accounts]. fold T2.
    edestruct (clean_data_dedup_run (length (heap w ++ [T1]))
                 (mkWorld ((heap w ++ [T1]) ++ [T2])
                    (((stdout w ++
                       [[Lit "Original shape: ";
                         Shape (length (rows T)) (length (columns T))]]) ++
                      [[Lit "Shape after dropping NAs: ";
                        Shape (length (rows T1)) (length (columns T1))]]) ++
                     [[Lit "Dropped the 'index' column."]])
                    (files w) (accounts w)) T2)
      as (l' & ext & Hrun & Hle & Hres).
    { cbn [heap]. by apply list_lookup_middle. }
    { by apply track_id_in_hygiene. }
    exists l', ([T1; T2] ++ ext).
    cbn [heap stdout files accounts] in Hrun, Hres. fold T3 in Hrun, Hres.
    rewrite length_app in Hle. simpl in Hle.
    split; [|split].
    + etrans; [exact Hrun|]. f_equal. f_equal; by rewrite <- ?app_assoc.
    + lia.
    + rewrite <- Hres. by rewrite <- !app_assoc.
  - rewrite !(bool_decide_false _ Hidx).
    erewrite bind_return by reflexivity.
    assert (schema_hygiene_pass T1 = T1) as HT2.
    { unfold schema_hygiene_pass. by rewrite (bool_decide_false _ Hidx). }
    subst T3 T2. rewrite !HT2.
    edestruct (clean_data_dedup_run (length (heap w))
                 (mkWorld (heap w ++ [T1])
                    ((stdout w ++
                      [[Lit "Original shape: ";
                        Shape (length (rows T)) (length (columns T))]]) ++
                     [[Lit "Shape after dropping NAs: ";
                       Shape (length (rows T1)) (length (columns T1))]])
                    (files w) (accounts w)) T1)
      as (l' & ext & Hrun & Hle & Hres); [done..|].
    exists l', ([T1] ++ ext).
    cbn [heap stdout files accounts] in Hrun, Hres.
    split; [|split].
    + etrans; [exact Hrun|]. f_equal. f_equal; by rewrite <- ?app_assoc.
    + lia.
    + rewrite <- Hres. by rewrite <- !app_assoc.
Qed.

(** *** Deduplication keeps first occurrences *)

Lemma keep_first_not_seen subset seen rs r :
  r ∈ pd.keep_first subset seen rs → pd.key subset r ∉ seen.
Proof.
  revert seen. induction rs as [|r0 rs IH]; intros seen; simpl.
  - by intros ?%elem_of_nil.
  - case_bool_decide as Hk.
    + intros Hr%IH Hin. apply Hr. by right.
    + intros [->|Hr]%elem_of_cons; [done|].
      apply IH in Hr. intros Hin. apply Hr. by right.
Qed.

Lemma keep_first_NoDup subset seen rs :
  NoDup (pd.key subset <$> pd.keep_first subset seen rs).
Proof.
  revert seen. induction rs as [|r0 rs IH]; intros seen; simpl.
  - constructor.
  - case_bool_decide as Hk; [apply IH|].
    rewrite fmap_cons. constructor; [|apply IH].
    intros (r & Hkey & Hr)%list_elem_of_fmap.
    apply keep_first_not_seen in Hr. apply Hr. rewrite <- Hkey. by left.
Qed.

Lemma keep_first_elem subset seen rs r' :
  r' ∈ pd.keep_first subset seen rs →
  ∃ pre post, rs = pre ++ r' :: post ∧
    ∀ r2, r2 ∈ pre → pd.key subset r2 ≠ pd.key subset r'.
Proof.
  revert seen. induction rs as [|r0 rs IH]; intros seen; simpl.
  - by intros ?%elem_of_nil.
  - assert (r' ∈ pd.keep_first subset (pd.key subset r0 :: seen) rs →
            ∃ pre post, r0 :: rs = pre ++ r' :: post ∧
              ∀ r2, r2 ∈ pre → pd.key subset r2 ≠ pd.key subset r') as Hrec.
    { intros Hr. destruct (IH _ Hr) as (pre & post & -> & Hpre).
      exists (r0 :: pre), post. split; [done|].
      intros r2 [->|Hr2]%elem_of_cons; [|by apply Hpre].
      apply keep_first_not_seen in Hr. intros Heq. apply Hr.
      rewrite <- Heq. by left. }
    case_bool_decide as Hk; [done|].
    intros [->|Hr]%elem_of_cons; [|by apply Hrec].
    exists [], rs. split; [done|]. by intros r2 ?%elem_of_nil.
Qed.

Lemma keep_first_survives subset seen rs r :
  r ∈ rs →
  pd.key subset r ∈ seen ∨
  ∃ r', r' ∈ pd.keep_first subset seen rs ∧ pd.key subset r' = pd.key subset r.
Proof.
  revert seen. induction rs as [|r0 rs IH]; intros seen; simpl.
  - by intros ?%elem_of_nil.
  - intros [->|Hr]%elem_of_cons.
    + case_bool_decide as Hk; [by left|].
      right. exists r0. split; [by left|done].
    + destruct (IH (pd.key subset r0 :: seen) Hr)
        as [[Heq|Hin]%elem_of_cons|(r' & Hr' & Heq)].
      * case_bool_decide as Hk; [left; by rewrite Heq|].
        right. exists r0. split; [by left|done].
      * by left.
      * right. exists r'. split; [|done].
        case_bool_decide; [done|by right].
Qed.

Lemma filter_split {A} (P : A → Prop) `{∀ x, Decision (P x)} l a x b :
  filter P l = a ++ x :: b →
  ∃ a' b', l = a' ++ x :: b' ∧ filter P a' = a ∧ P x.
Proof.
  revert a. induction l as [|y l IH]; intros a; simpl.
  - by destruct a.
  - destruct (decide (P y)) as [Hy|Hy].
    + rewrite filter_cons_True by done. destruct a as [|a0 a]; simpl.
      * intros [= -> _]. by exists [], l.
      * intros [= -> Hf]. destruct (IH _ Hf) as (a' & b' & -> & <- & Hx).
        exists (a0 :: a'), b'. by rewrite filter_cons_True.
    + rewrite filter_cons_False by done. intros Hf.
      destruct (IH _ Hf) as (a' & b' & -> & <- & Hx).
      exists (y :: a'), b'. by rewrite filter_cons_False.
Qed.

Lemma complete_spec cols r :
  pd.complete cols r ↔ ∀ c, c ∈ cols → cell_at r c ≠ VNA.
Proof.
  unfold pd.complete. induction cols as [|c cols IH]; simpl.
  - split; [by intros _ c ?%elem_of_nil|done].
  - rewrite andb_True, IH. split.
    + intros [Hc Hcols] c' [->|Hc']%elem_of_cons; [|by apply Hcols].
      by destruct (cell_at r c).
    + intros Hall. split; [|intros c' Hc'; apply Hall; by right].
      specialize (Hall c (ltac:(by left))). by destruct (cell_at r c).
Qed.

(** *** The cleaned table *)

Lemma hygiene_rows T :
  rows (schema_hygiene_pass (completeness_pass T))
  = without_index T <$> filter (λ r, pd.complete (columns T) r) (rows T).
Proof.
  unfold schema_hygiene_pass, completeness_pass, without_index.
  cbn [columns rows]. case_bool_decide; cbn [rows]; [done|].
  by rewrite list_fmap_id.
Qed.

Lemma hygiene_columns T c :
  c ∈ columns (schema_hygiene_pass (completeness_pass T)) →
  c ∈ columns T ∧ ("index" ∈ columns T → c ≠ "index").
Proof.
  unfold schema_hygiene_pass, completeness_pass. cbn [columns rows].
  case_bool_decide as Hidx; cbn [columns].
  - intros [Hc Hin]%list_elem_of_filter. split; [done|].
    intros _ ->. apply Hc. by left.
  - intros Hc. split; [done|]. by intros ?.
Qed.

Lemma without_index_cell T r c :
  ("index" ∈ columns T → c ≠ "index") →
  cell_at (without_index T r) c = cell_at r c.
Proof.
  intros Hc. unfold without_index, cell_at. case_bool_decide; [|done].
  rewrite lookup_delete_ne; [done|]. intros Heq. by apply Hc.
Qed.

Lemma without_index_key T r :
  pd.key ["track_id"] (without_index T r) = pd.key ["track_id"] r.
Proof. unfold pd.key. simpl. by rewrite without_index_cell. Qed.

Lemma key_track_id r1 r2 :
  pd.key ["track_id"] r1 = pd.key ["track_id"] r2 ↔ track_id_of r1 = track_id_of r2.
Proof. unfold pd.key, track_id_of. simpl. split; [by intros [= ->]|by intros ->]. Qed.

(** The properties of the three passes taken together. *)
Lemma cleaned_post_clean T :
  no_missing (cleaned T) ∧
  ("index" ∉ columns (cleaned T)) ∧
  unique_track_ids (cleaned T) ∧
  keeps_first_complete_occurrence T (cleaned T) ∧
  (∀ r, r ∈ rows T → pd.complete (columns T) r →
     ∃ r', r' ∈ rows (cleaned T) ∧ track_id_of r' = track_id_of r).
Proof.
  assert (∀ r', r' ∈ rows (cleaned T) →
    ∃ pre r post, rows T = pre ++ r :: post ∧ r' = without_index T r ∧
      pd.complete (columns T) r ∧
      ∀ r2, r2 ∈ pre → pd.complete (columns T) r2 →
            track_id_of r2 ≠ track_id_of r) as Hfirst.
  { intros r' Hr'. unfold cleaned, deduplication_pass in Hr'. cbn [rows] in Hr'.
    apply keep_first_elem in Hr' as (pre1 & post1 & Hsplit & Hpre1).
    rewrite hygiene_rows in Hsplit.
    apply fmap_app_inv in Hsplit as (a & xb & -> & Hxb & Hfilter).
    symmetry in Hxb. apply fmap_cons_inv in Hxb as (x & b & -> & _ & ->).
    apply filter_split in Hfilter as (a' & b' & HT & <- & Hx).
    exists a', x, b'. split; [done|]. split; [done|]. split; [done|].
    intros r2 Hr2 Hc2 Heq.
    apply (Hpre1 (without_index T r2)).
    - apply list_elem_of_fmap_2. by apply list_elem_of_filter.
    - rewrite !without_index_key. by apply key_track_id. }
  split; [|split; [|split; [|split]]].
  - intros r' c Hr' Hc.
    destruct (Hfirst r' Hr') as (pre & r & post & _ & -> & Hcomplete & _).
    unfold cleaned, deduplication_pass in Hc. cbn [columns] in Hc.
    apply hygiene_columns in Hc as [Hc Hne].
    rewrite without_index_cell by done.
    by apply (complete_spec (columns T) r).
  - intros Hc. unfold cleaned, deduplication_pass in Hc. cbn [columns] in Hc.
    pose proof Hc as [Hin Hne]%hygiene_columns.
    unfold schema_hygiene_pass, completeness_pass in Hc.
    cbn [columns] in Hc. rewrite (bool_decide_true _ Hin) in Hc.
    by apply Hne.
  - unfold unique_track_ids, cleaned, deduplication_pass. cbn [rows].
    apply (NoDup_fmap_1 (λ c, [c])). rewrite <- list_fmap_compose.
    apply (keep_first_NoDup ["track_id"]).
  - exact Hfirst.
  - intros r Hr Hcomplete.
    destruct (keep_first_survives ["track_id"] []
                (rows (schema_hygiene_pass (completeness_pass T)))
                (without_index T r)) as [Hnil|(r' & Hr' & Hkey)].
    + rewrite hygiene_rows. apply list_elem_of_fmap_2.
      by apply list_elem_of_filter.
    + by apply elem_of_nil in Hnil.
    + exists r'. split; [done|].
      rewrite without_index_key in Hkey. by apply key_track_id.
Qed.

(** C2 (amended).  On a table with a [track_id] column [clean_data] returns
    a table in which no row has a missing value, there is no [index]
    column, no two rows share a [track_id], every row is the first row of
    the input without missing values with its [track_id] (less its [index]
    cell), and every [track_id] of such a row of the input is present. *)
Theorem clean_data_post_clean (w : World) (l : nat) (T : DataFrame) :
  heap w !! l = Some T →
  "track_id" ∈ columns T →
  ∃ l' w' res,
    clean_data l w = (Return l', w') ∧
    heap w' !! l' = Some res ∧
    no_missing res ∧
    ("index" ∉ columns res) ∧
    unique_track_ids res ∧
    keeps_first_complete_occurrence T res ∧
    (∀ r, r ∈ rows T → pd.complete (columns T) r →
       ∃ r', r' ∈ rows res ∧ track_id_of r' = track_id_of r).
Proof.
  intros Hl Htid.
  destruct (clean_data_run l w T Hl Htid) as (l' & ext & Hrun & _ & Hres).
  eexists l', _, (cleaned T). split; [exact Hrun|].
  split; [exact Hres|]. apply cleaned_post_clean.
Qed.

Lemma clean_data_post_clean_witness :
  ∃ l' w' res,
    clean_data 0%nat (world_of example_raw) = (Return l', w') ∧
    heap w' !! l' = Some res ∧
    no_missing res ∧ ("index" ∉ columns res) ∧ unique_track_ids res.
Proof.
  destruct (clean_data_post_clean (world_of example_raw) 0%nat example_raw)
    as (l' & w' & res & Hrun & Hres & Hna & Hidx & Huniq & _).
  - reflexivity.
  - apply (bool_decide_unpack _). vm_compute. exact I.
  - exists l', w', res. repeat split; assumption.
Defined.

(** C2 as claimed fails: in [example_incomplete] the first row with
    [track_id] "a" has a missing popularity, so the row that survives is the
    second one. *)
Lemma clean_data_first_of_all_counterexample :
  ∃ l' w' res,
    clean_data 0%nat (world_of example_incomplete) = (Return l', w') ∧
    heap w' !! l' = Some res ∧
    ¬ post_clean_first_of_all example_incomplete res.
Proof.
  destruct (clean_data_run 0%nat (world_of example_incomplete)
              example_incomplete) as (l' & ext & Hrun & _ & Hres).
  { reflexivity. }
  { apply (bool_decide_unpack _). vm_compute. exact I. }
  eexists l', _, _. split; [exact Hrun|]. split; [exact Hres|].
  intros (_ & _ & _ & Hfirst).
  assert (rows (cleaned example_incomplete)
          = [row_of [("track_id", VStr "a"); ("popularity", VInt 50)]]) as Hrows
    by (vm_compute; reflexivity).
  destruct (Hfirst (row_of [("track_id", VStr "a"); ("popularity", VInt 50)]))
    as (pre & r & post & Hsplit & Heq & Hpre).
  { fold (cleaned example_incomplete). rewrite Hrows. by left. }
  destruct pre as [|p1 [|p2 pre]]; simpl in Hsplit.
  - injection Hsplit as <- _.
    apply (f_equal (λ m : gmap string cell, m !! "popularity")) in Heq.
    vm_compute in Heq. discriminate Heq.
  - injection Hsplit as <- <- _.
    apply (Hpre _ (ltac:(by left))). vm_compute. reflexivity.
  - injection Hsplit as _ _ Hnil. by destruct pre.
Qed.

(** On [example_incomplete] no duplicate is reported, although "a" occurs
    twice in the raw table: the first occurrence went with the completeness
    pass. *)
Example clean_report_incomplete :
  clean_report example_incomplete
  = [ [Lit "Original shape: "; Shape 2 2];
      [Lit "Shape after dropping NAs: "; Shape 1 2];
      [Lit "Final shape after cleaning: "; Shape 1 2] ].
Proof. vm_compute. reflexivity. Qed.

(** C3.  [clean_data] returns the deduplication pass of the schema-hygiene
    pass of the completeness pass of its input, and the duplicate count it
    reports (when positive, and only then) is the number of rows the
    deduplication pass discards from the table left by the first two
    passes. *)
Theorem clean_data_pass_order (w : World) (l : nat) (T : DataFrame) :
  heap w !! l = Some T →
  "track_id" ∈ columns T →
  let after_two := schema_hygiene_pass (completeness_pass T) in
  ∃ l' w',
    clean_data l w = (Return l', w') ∧
    heap w' !! l' = Some (deduplication_pass after_two) ∧
    stdout w' = stdout w ++ clean_report T ∧
    (∀ n, [Lit "Found "; Num n; Lit " duplicate tracks. Removing them."]
            ∈ clean_report T ↔
          n = Z.of_nat (duplicate_count after_two) ∧ 0 < n) ∧
    duplicate_count after_two
    = (length (rows after_two) - length (rows (deduplication_pass after_two)))%nat.
Proof.
  intros Hl Htid after_two.
  destruct (clean_data_run l w T Hl Htid) as (l' & ext & Hrun & _ & Hres).
  eexists l', _. split; [exact Hrun|]. split; [exact Hres|].
  split; [done|]. split; [|done].
  intros n. unfold clean_report. fold after_two.
  destruct (bool_decide ("index" ∈ columns T));
    destruct (decide (0 < duplicate_count after_two)%nat) as [Hn|Hn];
    [rewrite (bool_decide_true _ Hn)|rewrite (bool_decide_false _ Hn)
    |rewrite (bool_decide_true _ Hn)|rewrite (bool_decide_false _ Hn)];
    simpl; split.
  all: try (intros H;
            repeat (apply elem_of_cons in H as [H|H]; [try discriminate H|]);
            [..|by apply elem_of_nil in H]).
  all: try (injection H as ->; split; [done|lia]).
  all: intros [-> Hpos]; try lia.
  all: repeat first [by left | right].
Qed.

Lemma clean_data_pass_order_witness :
  ∃ l' w',
    clean_data 0%nat (world_of example_raw) = (Return l', w') ∧
    stdout w' = stdout (world_of example_raw) ++ clean_report example_raw.
Proof.
  destruct (clean_data_pass_order (world_of example_raw) 0%nat example_raw)
    as (l' & w' & Hrun & _ & Hout & _).
  - reflexivity.
  - apply (bool_decide_unpack _). vm_compute. exact I.
  - exists l', w'. split; [exact Hrun|exact Hout].
Defined.

(** What [clean_data] does on a table without a [track_id] column that the
    first two passes do not empty: [duplicated] raises. *)
Lemma clean_data_raise l w T :
  heap w !! l = Some T → "track_id" ∉ columns T →
  pd.empty (schema_hygiene_pass (completeness_pass T)) = false →
  ∃ ext out,
    clean_data l w
    = (Raise (KeyError "track_id"),
       mkWorld (heap w ++ ext) (stdout w ++ out) (files w) (accounts w)).
Proof.
  intros Hl Htid Hne. unfold clean_data.
  set (T1 := completeness_pass T) in *.
  run_with (shape_run _ _ _ Hl). run_print.
  erewrite bind_return; [|by apply dropna_run]. cbn [heap].
  erewrite bind_return.
  2:{ apply (shape_run _ _ T1). cbn [heap]. by apply list_lookup_middle. }
  cbn [fst snd]. run_print.
  erewrite bind_return.
  2:{ apply (get_columns_run _ _ T1). cbn [heap]. by apply list_lookup_middle. }
  assert ((heap w ++ [T1]) !! length (heap w) = Some T1) as Hl1
    by (by apply list_lookup_middle).
  destruct (decide ("index" ∈ columns T)) as [Hidx|Hidx].
  - rewrite !(bool_decide_true _ Hidx).
    erewrite bind_return.
    2:{ erewrite bind_return by (by apply (drop_index_run _ _ T1)).
        erewrite bind_return by apply print_run. reflexivity. }
    cbn [heap stdout files accounts].
    erewrite bind_raise.
    2:{ apply (duplicated_raise _ _ (schema_hygiene_pass T1)).
        - cbn [heap]. by apply list_lookup_middle.
        - done.
        - intros [Hin _]%hygiene_columns. done. }
    eexists [T1; schema_hygiene_pass T1], _.
    f_equal. f_equal; by rewrite <- ?app_assoc.
  - rewrite !(bool_decide_false _ Hidx).
    erewrite bind_return by reflexivity.
    assert (schema_hygiene_pass T1 = T1) as HT2.
    { unfold schema_hygiene_pass. by rewrite (bool_decide_false _ Hidx). }
    rewrite HT2 in Hne.
    erewrite bind_raise.
    2:{ by apply (duplicated_raise _ _ T1). }
    eexists [T1], _. f_equal. f_equal. by rewrite <- app_assoc.
Qed.

(** What [clean_data] does when the first two passes leave no row or no
    column: [duplicated] answers with an empty series whatever the columns
    are, no duplicate is counted, and the emptied table is returned. *)
Lemma clean_data_emptied l w T :
  heap w !! l = Some T →
  pd.empty (schema_hygiene_pass (completeness_pass T)) = true →
  ∃ l' ext out,
    clean_data l w
    = (Return l',
       mkWorld (heap w ++ ext) (stdout w ++ out) (files w) (accounts w)) ∧
    (length (heap w) ≤ l')%nat ∧
    (heap w ++ ext) !! l' = Some (schema_hygiene_pass (completeness_pass T)).
Proof.
  intros Hl He. unfold clean_data.
  set (T1 := completeness_pass T) in *.
  run_with (shape_run _ _ _ Hl). run_print.
  erewrite bind_return; [|by apply dropna_run]. cbn [heap].
  erewrite bind_return.
  2:{ apply (shape_run _ _ T1). cbn [heap]. by apply list_lookup_middle. }
  cbn [fst snd]. run_print.
  erewrite bind_return.
  2:{ apply (get_columns_run _ _ T1). cbn [heap]. by apply list_lookup_middle. }
  assert ((heap w ++ [T1]) !! length (heap w) = Some T1) as Hl1
    by (by apply list_lookup_middle).
  assert (pd.sum [] = 0) as Hsum by done.
  destruct (decide ("index" ∈ columns T)) as [Hidx|Hidx].
  - rewrite !(bool_decide_true _ Hidx).
    erewrite bind_return.
    2:{ erewrite bind_return by (by apply (drop_index_run _ _ T1)).
        erewrite bind_return by apply print_run. reflexivity. }
    cbn [heap stdout files accounts].
    erewrite bind_return.
    2:{ apply (duplicated_empty _ _ (schema_hygiene_pass T1)); [|done].
        cbn [heap]. by apply list_lookup_middle. }
    rewrite Hsum. change (0 <? 0) with false. cbn iota.
    erewrite bind_return by reflexivity.
    erewrite bind_return.
    2:{ apply (shape_run _ _ (schema_hygiene_pass T1)).
        cbn [heap]. by apply list_lookup_middle. }
    cbn [fst snd]. erewrite bind_return by apply print_run.
    cbn [heap stdout files accounts].
    eexists _, [T1; schema_hygiene_pass T1], _. split; [|split].
    + unfold mret, Py_ret. f_equal. f_equal; by rewrite <- ?app_assoc.
    + rewrite length_app. simpl. lia.
    + replace (heap w ++ [T1; schema_hygiene_pass T1])
        with ((heap w ++ [T1]) ++ [schema_hygiene_pass T1])
        by (by rewrite <- app_assoc).
      by apply list_lookup_middle.
  - rewrite !(bool_decide_false _ Hidx).
    erewrite bind_return by reflexivity.
    assert (schema_hygiene_pass T1 = T1) as HT2.
    { unfold schema_hygiene_pass. by rewrite (bool_decide_false _ Hidx). }
    rewrite HT2 in *.
    erewrite bind_return.
    2:{ by apply (duplicated_empty _ _ T1). }
    rewrite Hsum. change (0 <? 0) with false. cbn iota.
    erewrite bind_return by reflexivity.
    erewrite bind_return.
    2:{ by apply (shape_run _ _ T1). }
    cbn [fst snd]. erewrite bind_return by apply print_run.
    cbn [heap stdout files accounts].
    eexists _, [T1], _. split; [|split].
    + unfold mret, Py_ret. f_equal. f_equal. by rewrite <- ?app_assoc.
    + lia.
    + done.
Qed.

(** C5 as claimed fails: [example_emptied] has no [track_id] column and its
    only row has a missing value, and [clean_data] raises nothing on it: it
    returns the table without rows. *)
Lemma clean_data_missing_track_id_counterexample :
  ("track_id" ∉ columns example_emptied) ∧
  (¬ ∃ e w', clean_data 0%nat (world_of example_emptied) = (Raise e, w')) ∧
  ∃ l' w',
    clean_data 0%nat (world_of example_emptied) = (Return l', w') ∧
    heap w' !! l' = Some (mkDataFrame ["name"; "popularity"] []).
Proof.
  destruct (clean_data_emptied 0%nat (world_of example_emptied) example_emptied)
    as (l' & ext & out & Hrun & _ & Hres); [reflexivity|by vm_compute|].
  split; [apply (bool_decide_unpack _); vm_compute; exact I|].
  split.
  - intros (e & w' & Hraise). rewrite Hrun in Hraise. discriminate Hraise.
  - eexists l', _. split; [exact Hrun|]. cbn [heap]. rewrite Hres.
    f_equal.
Qed.

(** C5 (amended).  On a table without a [track_id] column that still has a
    row and a column after the first two passes, [clean_data] raises
    [KeyError] for [track_id] and returns no table; when those passes leave
    no row or no column it raises nothing and returns the emptied table. *)
Theorem clean_data_missing_track_id (w : World) (l : nat) (T : DataFrame) :
  heap w !! l = Some T →
  "track_id" ∉ columns T →
  (pd.empty (schema_hygiene_pass (completeness_pass T)) = false →
     ∃ w', clean_data l w = (Raise (KeyError "track_id"), w')) ∧
  (pd.empty (schema_hygiene_pass (completeness_pass T)) = true →
     ∃ l' w', clean_data l w = (Return l', w') ∧
              heap w' !! l' = Some (schema_hygiene_pass (completeness_pass T))).
Proof.
  intros Hl Htid. split.
  - intros Hne.
    destruct (clean_data_raise l w T Hl Htid Hne) as (ext & out & Hrun).
    eexists. exact Hrun.
  - intros He.
    destruct (clean_data_emptied l w T Hl He) as (l' & ext & out & Hrun & _ & Hres).
    eexists l', _. split; [exact Hrun|exact Hres].
Qed.

Lemma clean_data_missing_track_id_witness :
  ∃ w', clean_data 0%nat (world_of example_no_track_id)
        = (Raise (KeyError "track_id"), w').
Proof.
  destruct (clean_data_missing_track_id (world_of example_no_track_id) 0%nat
              example_no_track_id) as [Hraise _].
  - reflexivity.
  - apply (bool_decide_unpack _). vm_compute. exact I.
  - apply Hraise. vm_compute. reflexivity.
Defined.

(** Whatever the table, [clean_data] only adds tables to the store, and a
    reference it returns is one of the added ones. *)
Lemma clean_data_extends l w T r w' :
  heap w !! l = Some T →
  clean_data l w = (r, w') →
  ∃ ext, heap w' = heap w ++ ext ∧
    ∀ l', r = Return l' →
      (length (heap w) ≤ l')%nat ∧
      ∃ res, (heap w ++ ext) !! l' = Some res ∧
             ("track_id" ∈ columns T → res = cleaned T).
Proof.
  intros Hl Hrun.
  destruct (decide ("track_id" ∈ columns T)) as [Htid|Htid].
  - destruct (clean_data_run l w T Hl Htid) as (l' & ext & Hrun' & Hle & Hres).
    rewrite Hrun' in Hrun. injection Hrun as <- <-. cbn [heap].
    exists ext. split; [done|]. intros ? [= <-]. split; [done|].
    by exists (cleaned T).
  - destruct (pd.empty (schema_hygiene_pass (completeness_pass T))) eqn:He.
    + destruct (clean_data_emptied l w T Hl He)
        as (l' & ext & out & Hrun' & Hle & Hres).
      rewrite Hrun' in Hrun. injection Hrun as <- <-. cbn [heap].
      exists ext. split; [done|]. intros ? [= <-]. split; [done|].
      eexists. split; [exact Hres|]. by intros ?.
    + destruct (clean_data_raise l w T Hl Htid He) as (ext & out & Hrun').
      rewrite Hrun' in Hrun. injection Hrun as <- <-. cbn [heap].
      exists ext. split; [done|]. by intros ? [=].
Qed.

(** C10.  However [clean_data] ends, every table of the store, its argument
    included, is as it was before the call; a returned reference is a new
    one, not in the store before, to a table of the store after (the
    cleaned table, when the input has a [track_id] column); whereas
    [define_hit_songs] returns the reference it was given. *)
Theorem clean_data_input_unchanged (w : World) (l : nat) (T : DataFrame) :
  heap w !! l = Some T →
  (∀ r w', clean_data l w = (r, w') →
     heap w' !! l = Some T ∧
     (∀ l2 d, heap w !! l2 = Some d → heap w' !! l2 = Some d) ∧
     (∀ l', r = Return l' →
        l' ≠ l ∧ heap w !! l' = None ∧
        ∃ res, heap w' !! l' = Some res ∧
               ("track_id" ∈ columns T → res = cleaned T))) ∧
  (∀ k r w', define_hit_songs l k w = (Return r, w') → r = l).
Proof.
  intros Hl. split.
  - intros r w' Hrun.
    destruct (clean_data_extends l w T r w' Hl Hrun) as (ext & Hheap & Hret).
    assert (∀ l2 d, heap w !! l2 = Some d → heap w' !! l2 = Some d) as Hkeep.
    { intros l2 d H. rewrite Hheap, lookup_app_l; [done|].
      by eapply lookup_lt_Some. }
    split; [by apply Hkeep|]. split; [exact Hkeep|].
    intros l' Hl'. destruct (Hret l' Hl') as (Hle & res & Hres & Hclean).
    split; [apply lookup_lt_Some in Hl; lia|].
    split; [apply lookup_ge_None; lia|].
    exists res. split; [by rewrite Hheap|exact Hclean].
  - intros k r w' Hrun.
    by destruct (define_hit_songs_inv _ _ _ _ _ Hrun) as (? & ? & _ & _ & _ & -> & _).
Qed.

Lemma clean_data_input_unchanged_witness :
  heap (snd (clean_data 0%nat (world_of example_raw))) !! 0%nat
  = Some example_raw.
Proof.
  destruct (clean_data_input_unchanged (world_of example_raw) 0%nat example_raw
              eq_refl) as [H _].
  destruct (clean_data 0%nat (world_of example_raw)) as [r w'] eqn:E.
  exact (proj1 (H r w' eq_refl)).
Defined.

(** ** [load_spotify_dataset] *)

Lemma load_spotify_dataset_run file_path w :
  load_spotify_dataset file_path w =
  match files w !! file_path with
  | None =>
      (Return None,
       mkWorld (heap w)
         (stdout w ++ [ [Lit "Error: The file '"; Str file_path;
                         Lit "' was not found."] ])
         (files w) (accounts w))
  | Some (Unreadable (FileNotFoundError p)) =>
      (Return None,
       mkWorld (heap w)
         (stdout w ++ [ [Lit "Error: The file '"; Str file_path;
                         Lit "' was not found."] ])
         (files w) (accounts w))
  | Some (Unreadable e) => (Raise e, w)
  | Some (Parsed df) =>
      (Return (Some (length (heap w))),
       mkWorld (heap w ++ [df])
         (stdout w ++ [ [Lit "Dataset '"; Str file_path;
                         Lit "' loaded successfully with ";
                         Len (length (rows df)); Lit " rows."] ])
         (files w) (accounts w))
  end.
Proof.
  unfold load_spotify_dataset, try_except, pd.read_csv.
  unfold mbind at 1, Py_bind.
  destruct (files w !! file_path) as [[df|e]|] eqn:Hf.
  - unfold alloc.
    erewrite bind_return.
    2:{ apply (shape_run _ _ df). cbn [heap]. by apply list_lookup_middle. }
    by erewrite bind_return by apply print_run.
  - by destruct e.
  - done.
Qed.



(** ** [search_playlist] *)

Lemma search_playlist_loop_found pre p post w :
  Forall (λ i, i = None) pre →
  search_playlist_loop (pre ++ Some p :: post) w
  = (Return (Some (Some (spotipy.id p), Some (spotipy.name p))),
     say (found_line p) w).
Proof.
  induction 1 as [|i pre -> _ IH]; simpl; [|exact IH].
  by erewrite bind_return by apply print_run.
Qed.

Lemma search_playlist_loop_none items w :
  Forall (λ i, i = None) items →
  search_playlist_loop items w = (Return None, w).
Proof. induction 1 as [|i items -> _ IH]; simpl; [done|exact IH]. Qed.

Lemma search_playlist_unfold sp query limit w :
  search_playlist sp query limit w =
  match spotipy.search sp query "playlist" (default 5%nat limit) with
  | Raise e => (Raise e, w)
  | Return results =>
      match
        search_playlist_loop
          (match results with
           | Some res => spotipy.playlists_items res
           | None => []
           end) w
      with
      | (Return (Some r), w') => (Return r, w')
      | (Return None, w') => (Return (None, None), say (not_found_line query) w')
      | (Raise e, w') => (Raise e, w')
      end
  end.
Proof.
  unfold search_playlist. unfold mbind at 1, Py_bind, call.
  destruct (spotipy.search _ _ _ _) as [[[items]|]|e]; [| |done].
  - cbn [spotipy.playlists_items]. unfold mbind at 1, Py_bind.
    destruct items as [|i items].
    + simpl. unfold mret at 1, Py_ret.
      by erewrite bind_return by apply print_run.
    + destruct (search_playlist_loop (i :: items) w) as [[[r|]|e] w'] eqn:E;
        try done.
  - simpl. unfold mbind at 1, Py_bind. unfold mret at 1, Py_ret.
    by erewrite bind_return by apply print_run.
Qed.

(** C9.  Whatever list of items the search answers with: when an item is
    not null, [search_playlist] returns the id and name of the first such
    item; when every item is null (or there is none), it returns
    [(None, None)]; so the items [[null; {id: x, name: Y}]] give
    [(x, Y)]. *)
Theorem search_playlist_first_valid (sp : spotipy.Spotify) (query : string)
    (limit : option nat) (items : list (option spotipy.playlist)) (w : World) :
  spotipy.search sp query "playlist" (default 5%nat limit)
    = Return (Some (spotipy.mkSearchResponse items)) →
  (∀ pre p post,
     items = pre ++ Some p :: post → Forall (λ i, i = None) pre →
     search_playlist sp query limit w
     = (Return (Some (spotipy.id p), Some (spotipy.name p)),
        say (found_line p) w)) ∧
  (Forall (λ i, i = None) items →
     search_playlist sp query limit w
     = (Return (None, None), say (not_found_line query) w)) ∧
  (items = [None; Some (spotipy.mkPlaylist "x" "Y")] →
     fst (search_playlist sp query limit w) = Return (Some "x", Some "Y")).
Proof.
  intros Hsearch.
  assert (∀ pre p post,
     items = pre ++ Some p :: post → Forall (λ i, i = None) pre →
     search_playlist sp query limit w
     = (Return (Some (spotipy.id p), Some (spotipy.name p)),
        say (found_line p) w)) as Hfound.
  { intros pre p post -> Hpre.
    rewrite search_playlist_unfold, Hsearch. cbn [spotipy.playlists_items].
    by rewrite search_playlist_loop_found. }
  split; [exact Hfound|]. split.
  - intros Hnone. rewrite search_playlist_unfold, Hsearch.
    cbn [spotipy.playlists_items]. by rewrite search_playlist_loop_none.
  - intros Hitems.
    rewrite (Hfound [None] (spotipy.mkPlaylist "x" "Y") []); [done|done|].
    by repeat constructor.
Qed.

Lemma search_playlist_first_valid_witness :
  fst (search_playlist
         (example_client [None; Some (spotipy.mkPlaylist "x" "Y")])
         "top hits" None (world_of example_raw))
  = Return (Some "x", Some "Y").
Proof.
  destruct (search_playlist_first_valid
              (example_client [None; Some (spotipy.mkPlaylist "x" "Y")])
              "top hits" None [None; Some (spotipy.mkPlaylist "x" "Y")]
              (world_of example_raw) eq_refl) as (_ & _ & H).
  exact (H eq_refl).
Defined.

(** ** Failures: handled in place, or raised *)

Lemma connect_to_spotify_run client_id client_secret w :
  connect_to_spotify client_id client_secret w =
  match accounts w client_id client_secret with
  | Return sp =>
      (Return (Some sp), say [Lit "Successfully connected to the Spotify API!"] w)
  | Raise e =>
      (Return None, say [Lit "Error connecting to Spotify: "; Exc e] w)
  end.
Proof.
  unfold connect_to_spotify, try_except, call.
  unfold mbind at 1, Py_bind.
  destruct (accounts w client_id client_secret) as [sp|e].
  - by erewrite bind_return by apply print_run.
  - by erewrite bind_return by apply print_run.
Qed.

Lemma get_playlist_tracks_run sp playlist_id w :
  get_playlist_tracks sp playlist_id w =
  match spotipy.playlist_tracks sp playlist_id with
  | Raise e => (Raise e, w)
  | Return results =>
      let song_data := get_playlist_tracks_loop (spotipy.items results) [] in
      (Return song_data,
       say [Lit "Collected data for "; Len (length song_data); Lit " songs!"] w)
  end.
Proof.
  unfold get_playlist_tracks, call. unfold mbind at 1, Py_bind.
  destruct (spotipy.playlist_tracks sp playlist_id) as [results|e]; [|done].
  by erewrite bind_return by apply print_run.
Qed.






(** * Further properties of the module *)

(** ** The catalog flow *)

Lemma get_playlist_tracks_loop_spec items song_data :
  get_playlist_tracks_loop items song_data
  = song_data ++ omap (fmap song_info_of) items.
Proof.
  revert song_data. induction items as [|[t|] items IH]; intros song_data; simpl.
  - by rewrite app_nil_r.
  - rewrite IH. by rewrite <- app_assoc.
  - apply IH.
Qed.

(** X1.  [get_playlist_tracks] returns one entry per non-null track of the
    answer, in the order of the answer, carrying the track's name, id,
    popularity and artist names; null tracks are skipped, so the list is no
    longer than the answer; the printed count is the length of the list and
    the store is untouched. *)
Theorem get_playlist_tracks_entries (sp : spotipy.Spotify)
    (playlist_id : string) (results : spotipy.tracks_response) (w : World) :
  spotipy.playlist_tracks sp playlist_id = Return results →
  ∃ song_data,
    get_playlist_tracks sp playlist_id w
    = (Return song_data,
       say [Lit "Collected data for "; Len (length song_data); Lit " songs!"] w) ∧
    song_data = omap (fmap song_info_of) (spotipy.items results) ∧
    (length song_data ≤ length (spotipy.items results))%nat ∧
    (∀ t, Some t ∈ spotipy.items results → song_info_of t ∈ song_data) ∧
    (∀ s, s ∈ song_data → ∃ t, Some t ∈ spotipy.items results ∧ s = song_info_of t).
Proof.
  intros Hres. eexists. rewrite get_playlist_tracks_run, Hres. cbn zeta.
  rewrite get_playlist_tracks_loop_spec. cbn [app].
  split; [done|]. split; [done|]. split; [|split].
  - generalize (spotipy.items results) as items.
    induction items as [|[t|] items IH]; cbn in *; lia.
  - intros t Ht. apply list_elem_of_omap. exists (Some t). by split.
  - intros s (o & Ho & Hs)%list_elem_of_omap.
    destruct o as [t|]; [|done]. injection Hs as <-. by exists t.
Qed.

Lemma get_playlist_tracks_entries_witness :
  fst (get_playlist_tracks example_tracks_client "p1" (world_of example_raw))
  = Return [ mkSongInfo "One" "t1" 90 ["A"; "B"];
             mkSongInfo "Two" "t2" 40 ["C"] ].
Proof.
  destruct (get_playlist_tracks_entries example_tracks_client "p1"
              (spotipy.mkTracksResponse example_tracks)
              (world_of example_raw) eq_refl)
    as (song_data & Hrun & -> & _).
  by rewrite Hrun.
Defined.

(** X2.  [connect_to_spotify] never raises: whatever constructing the client
    does, it returns, the client when construction succeeded and [None]
    when it raised, having printed exactly one line and left the store
    untouched. *)
Theorem connect_to_spotify_never_raises (client_id client_secret : string)
    (w : World) :
  ∃ r line w',
    connect_to_spotify client_id client_secret w = (Return r, w') ∧
    w' = say line w ∧
    (∀ sp, r = Some sp ↔ accounts w client_id client_secret = Return sp) ∧
    (r = None ↔ ∃ e, accounts w client_id client_secret = Raise e).
Proof.
  rewrite connect_to_spotify_run.
  destruct (accounts w client_id client_secret) as [sp|e].
  - eexists (Some sp), _, _. split; [done|]. split; [done|]. split.
    + intros sp'. split; intros [= ->]; done.
    + split; [done|]. by intros [e ?].
  - eexists None, _, _. split; [done|]. split; [done|]. split.
    + intros sp'. split; intros ?; done.
    + split; [|done]. intros _. by exists e.
Qed.

Lemma search_playlist_loop_cases items w :
  (∃ p, Some p ∈ items ∧
        search_playlist_loop items w
        = (Return (Some (Some (spotipy.id p), Some (spotipy.name p))),
           say (found_line p) w)) ∨
  (Forall (λ i, i = None) items ∧
   search_playlist_loop items w = (Return None, w)).
Proof.
  induction items as [|[p|] items IH]; simpl.
  - right. by split.
  - left. exists p. split; [by left|].
    by erewrite bind_return by apply print_run.
  - destruct IH as [(p & Hp & Hrun)|[Hnone Hrun]].
    + left. exists p. split; [by right|done].
    + right. split; [by constructor|done].
Qed.

(** X3.  [search_playlist] raises only what the remote search raises.  When
    it returns, the pair is whole: either both the id and the name, taken
    from one non-null item of the answer, or [(None, None)]; exactly one
    line has been printed and the store is untouched. *)
Theorem search_playlist_pair (sp : spotipy.Spotify) (query : string)
    (limit : option nat) (w : World) :
  (∀ e w', search_playlist sp query limit w = (Raise e, w') →
     spotipy.search sp query "playlist" (default 5%nat limit) = Raise e ∧ w' = w) ∧
  (∀ a b w', search_playlist sp query limit w = (Return (a, b), w') →
     (a = None ↔ b = None) ∧
     (∃ line, w' = say line w) ∧
     (∀ i, a = Some i →
        ∃ res p, spotipy.search sp query "playlist" (default 5%nat limit)
                 = Return (Some res) ∧
                 Some p ∈ spotipy.playlists_items res ∧
                 a = Some (spotipy.id p) ∧ b = Some (spotipy.name p))).
Proof.
  rewrite search_playlist_unfold.
  destruct (spotipy.search _ _ _ _) as [results|e0].
  - destruct (search_playlist_loop_cases
                (match results with
                 | Some res => spotipy.playlists_items res
                 | None => []
                 end) w) as [(p & Hp & ->)|[_ ->]].
    + split; [by intros ? ? [=]|].
      intros a b w' [= <- <- <-]. split; [done|]. split; [by eexists|].
      intros i _. destruct results as [res|]; [|by apply elem_of_nil in Hp].
      by exists res, p.
    + split; [by intros ? ? [=]|].
      intros a b w' [= <- <- <-]. split; [done|]. split; [by eexists|].
      by intros i [=].
  - split; [by intros ? ? [= <- <-]|]. by intros ? ? ? [=].
Qed.

Lemma search_playlist_pair_witness :
  ∃ w', search_playlist offline_client "top hits" None (world_of example_raw)
        = (Raise (OtherError "connection refused"), w') ∧
        w' = world_of example_raw.
Proof.
  destruct (search_playlist_pair offline_client "top hits" None
              (world_of example_raw)) as [Hraise _].
  eexists. split; [reflexivity|].
  exact (proj2 (Hraise _ _ eq_refl)).
Defined.

(** ** Loading *)

(** X4.  When the file parses, [load_spotify_dataset] returns a new
    reference to the parsed table, leaves every table already in the store
    as it was, and prints the number of rows of the table. *)
Theorem load_spotify_dataset_parsed (w : World) (file_path : string)
    (df : DataFrame) :
  files w !! file_path = Some (Parsed df) →
  ∃ l w',
    load_spotify_dataset file_path w = (Return (Some l), w') ∧
    heap w' !! l = Some df ∧
    heap w !! l = None ∧
    (∀ l2 d, heap w !! l2 = Some d → heap w' !! l2 = Some d) ∧
    stdout w' = stdout w ++ [ [Lit "Dataset '"; Str file_path;
                               Lit "' loaded successfully with ";
                               Len (length (rows df)); Lit " rows."] ].
Proof.
  intros Hf. rewrite load_spotify_dataset_run, Hf.
  eexists _, _. split; [done|]. cbn [heap stdout].
  split; [by apply list_lookup_middle|].
  split; [by apply lookup_ge_None|]. split; [|done].
  intros l2 d H. rewrite lookup_app_l; [done|]. by eapply lookup_lt_Some.
Qed.

Lemma load_spotify_dataset_parsed_witness :
  ∃ l w',
    load_spotify_dataset "tracks.csv" (world_with_files example_raw)
      = (Return (Some l), w') ∧
    heap w' !! l = Some example_raw.
Proof.
  destruct (load_spotify_dataset_parsed (world_with_files example_raw)
              "tracks.csv" example_raw) as (l & w' & Hrun & Hl & _).
  - vm_compute. reflexivity.
  - exists l, w'. split; [exact Hrun|exact Hl].
Defined.

(** X5.  Only a file that is not found is handled: any other exception of
    [pd.read_csv] propagates out of [load_spotify_dataset], with nothing
    printed and the store untouched. *)
Theorem load_spotify_dataset_other_exception (w : World) (file_path : string)
    (e : exn) :
  files w !! file_path = Some (Unreadable e) →
  (∀ p, e ≠ FileNotFoundError p) →
  load_spotify_dataset file_path w = (Raise e, w).
Proof.
  intros Hf He. rewrite load_spotify_dataset_run, Hf.
  destruct e; try done. by destruct (He path).
Qed.

Lemma load_spotify_dataset_other_exception_witness :
  load_spotify_dataset "broken.csv" (world_with_files example_raw)
  = (Raise (OtherError "ParserError"), world_with_files example_raw).
Proof.
  apply (load_spotify_dataset_other_exception (world_with_files example_raw)
           "broken.csv" (OtherError "ParserError")).
  - vm_compute. reflexivity.
  - intros p. discriminate.
Defined.

(** ** More on [clean_data] *)

Lemma filter_all {A} (P : A → Prop) `{∀ x, Decision (P x)} (l : list A) :
  Forall P l → filter P l = l.
Proof.
  induction 1 as [|x l Hx _ IH]; [done|].
  rewrite filter_cons_True by done. by rewrite IH.
Qed.

Lemma filter_partition_length {A} (P : A → Prop) `{∀ x, Decision (P x)}
    (l : list A) :
  (length (filter P l) + length (filter (λ x, ¬ P x) l) = length l)%nat.
Proof.
  induction l as [|x l IH]; [done|].
  destruct (decide (P x)) as [Hx|Hx].
  - rewrite filter_cons_True by done.
    rewrite (filter_cons_False (λ x, ¬ P x)) by (by intros ?). simpl. lia.
  - rewrite filter_cons_False by done.
    rewrite (filter_cons_True (λ x, ¬ P x)) by done. simpl. lia.
Qed.

Lemma keep_first_sublist subset seen rs :
  pd.keep_first subset seen rs `sublist_of` rs.
Proof.
  revert seen. induction rs as [|r rs IH]; intros seen; simpl; [done|].
  case_bool_decide.
  - by apply sublist_cons.
  - by apply sublist_skip.
Qed.

Lemma keep_first_unique subset seen rs :
  NoDup (pd.key subset <$> rs) →
  (∀ r, r ∈ rs → pd.key subset r ∉ seen) →
  pd.keep_first subset seen rs = rs.
Proof.
  revert seen. induction rs as [|r rs IH]; intros seen; simpl; [done|].
  rewrite NoDup_cons. intros [Hr Hnodup] Hseen.
  rewrite bool_decide_false by (apply Hseen; by left).
  f_equal. apply IH; [done|].
  intros r2 Hr2 [Heq|Hin]%elem_of_cons.
  - apply Hr. rewrite <- Heq. by apply list_elem_of_fmap_2.
  - apply (Hseen r2); [by right|done].
Qed.

(** A table that meets the post-clean conditions is left as it is by the
    three passes. *)
Lemma cleaned_fixed T :
  no_missing T → "index" ∉ columns T → unique_track_ids T → cleaned T = T.
Proof.
  intros Hna Hidx Huniq.
  assert (completeness_pass T = T) as H1.
  { unfold completeness_pass. rewrite filter_all; [by destruct T|].
    apply Forall_forall. intros r Hr. apply complete_spec.
    intros c Hc. by apply Hna. }
  assert (schema_hygiene_pass T = T) as H2.
  { unfold schema_hygiene_pass. by rewrite (bool_decide_false _ Hidx). }
  unfold cleaned. rewrite H1, H2. unfold deduplication_pass.
  rewrite keep_first_unique; [by destruct T| |].
  - apply (NoDup_fmap_2 (λ c, [c])) in Huniq.
    by rewrite <- list_fmap_compose in Huniq.
  - intros r _ Hin. by apply elem_of_nil in Hin.
Qed.

Lemma clean_report_fixed T :
  cleaned T = T → "index" ∉ columns T → completeness_pass T = T →
  clean_report T
  = [ [Lit "Original shape: "; Shape (length (rows T)) (length (columns T))];
      [Lit "Shape after dropping NAs: ";
       Shape (length (rows T)) (length (columns T))];
      [Lit "Final shape after cleaning: ";
       Shape (length (rows T)) (length (columns T))] ].
Proof.
  intros Hfix Hidx H1. unfold clean_report.
  assert (schema_hygiene_pass T = T) as H2.
  { unfold schema_hygiene_pass. by rewrite (bool_decide_false _ Hidx). }
  rewrite (bool_decide_false _ Hidx), H1, H2.
  unfold cleaned in Hfix. rewrite H1, H2 in Hfix.
  unfold duplicate_count. rewrite Hfix.
  rewrite bool_decide_false by lia. done.
Qed.

(** X6.  On a table that already meets the post-clean conditions,
    [clean_data] returns a new table equal to its input and prints the same
    shape three times, with no line about an [index] column or about
    duplicates. *)
Theorem clean_data_already_clean (w : World) (l : nat) (T : DataFrame) :
  heap w !! l = Some T →
  "track_id" ∈ columns T →
  no_missing T → "index" ∉ columns T → unique_track_ids T →
  ∃ l' w',
    clean_data l w = (Return l', w') ∧
    l' ≠ l ∧
    heap w' !! l' = Some T ∧
    stdout w'
    = stdout w ++
      [ [Lit "Original shape: "; Shape (length (rows T)) (length (columns T))];
        [Lit "Shape after dropping NAs: ";
         Shape (length (rows T)) (length (columns T))];
        [Lit "Final shape after cleaning: ";
         Shape (length (rows T)) (length (columns T))] ].
Proof.
  intros Hl Htid Hna Hidx Huniq.
  destruct (clean_data_run l w T Hl Htid) as (l' & ext & Hrun & Hle & Hres).
  pose proof (cleaned_fixed T Hna Hidx Huniq) as Hfix.
  eexists l', _. split; [exact Hrun|]. cbn [heap stdout].
  split; [apply lookup_lt_Some in Hl; lia|].
  split; [by rewrite Hres; f_equal|].
  rewrite clean_report_fixed; [done..|].
  unfold completeness_pass. rewrite filter_all; [by destruct T|].
  apply Forall_forall. intros r Hr. apply complete_spec.
  intros c Hc. by apply Hna.
Qed.

Lemma clean_data_already_clean_witness :
  ∃ l' w',
    clean_data 0%nat (world_of example_cleaned) = (Return l', w') ∧
    l' ≠ 0%nat ∧ heap w' !! l' = Some example_cleaned.
Proof.
  destruct (clean_data_already_clean (world_of example_cleaned) 0%nat
              example_cleaned) as (l' & w' & Hrun & Hne & Hres & _).
  - reflexivity.
  - apply (bool_decide_unpack _). vm_compute. exact I.
  - intros r c Hr Hc. apply (bool_decide_unpack _). revert c Hc.
    apply Forall_forall. revert r Hr. apply Forall_forall.
    vm_compute. repeat constructor.
  - apply (bool_decide_unpack _). vm_compute. exact I.
  - apply (bool_decide_unpack _). vm_compute. exact I.
  - exists l', w'. split; [exact Hrun|]. split; [exact Hne|exact Hres].
Defined.

(** The table left by the first two passes is left as it is by them. *)
Lemma two_passes_fixed T :
  schema_hygiene_pass
    (completeness_pass (schema_hygiene_pass (completeness_pass T)))
  = schema_hygiene_pass (completeness_pass T).
Proof.
  set (T2 := schema_hygiene_pass (completeness_pass T)).
  assert ("index" ∉ columns T2) as Hidx.
  { intros Hc. pose proof Hc as [Hin Hne]%hygiene_columns.
    unfold T2, schema_hygiene_pass, completeness_pass in Hc.
    cbn [columns] in Hc. rewrite (bool_decide_true _ Hin) in Hc.
    by apply Hne. }
  assert (no_missing T2) as Hna.
  { intros r' c Hr' Hc. unfold T2 in Hr'. rewrite hygiene_rows in Hr'.
    apply list_elem_of_fmap in Hr' as (r & -> & [Hr _]%list_elem_of_filter).
    apply hygiene_columns in Hc as [Hc Hne].
    rewrite without_index_cell by done.
    by apply (complete_spec (columns T) r). }
  assert (completeness_pass T2 = T2) as ->.
  { unfold completeness_pass. rewrite filter_all; [by destruct T2|].
    apply Forall_forall. intros r Hr. apply complete_spec.
    intros c Hc. by apply Hna. }
  unfold schema_hygiene_pass at 1. by rewrite (bool_decide_false _ Hidx).
Qed.

(** X7.  [clean_data] is idempotent: cleaning the table it returned returns
    an equal table. *)
Theorem clean_data_idempotent (w w1 : World) (l l1 : nat) (T : DataFrame) :
  heap w !! l = Some T →
  clean_data l w = (Return l1, w1) →
  ∃ l2 w2 T1,
    clean_data l1 w1 = (Return l2, w2) ∧
    heap w1 !! l1 = Some T1 ∧ heap w2 !! l2 = Some T1 ∧ l2 ≠ l1.
Proof.
  intros Hl Hrun.
  destruct (decide ("track_id" ∈ columns T)) as [Htid|Htid].
  - destruct (clean_data_run l w T Hl Htid) as (l' & ext & Hrun' & _ & Hres).
    rewrite Hrun' in Hrun. injection Hrun as -> <-. cbn [heap].
    fold (cleaned T) in Hres.
    destruct (cleaned_post_clean T) as (Hna & Hidx & Huniq & _).
    assert ("track_id" ∈ columns (cleaned T)) as Htid1.
    { unfold cleaned, deduplication_pass. cbn [columns].
      by apply track_id_in_hygiene. }
    set (w1 := mkWorld (heap w ++ ext) (stdout w ++ clean_report T)
                       (files w) (accounts w)).
    destruct (clean_data_run l1 w1 (cleaned T) Hres Htid1)
      as (l2 & ext2 & Hrun2 & Hle2 & Hres2).
    subst w1. cbn [heap] in Hle2, Hres2.
    eexists l2, _, (cleaned T). split; [exact Hrun2|]. cbn [heap].
    split; [exact Hres|].
    split; [|apply lookup_lt_Some in Hres; lia].
    rewrite Hres2. f_equal. by apply cleaned_fixed.
  - destruct (pd.empty (schema_hygiene_pass (completeness_pass T))) eqn:He.
    2:{ destruct (clean_data_raise l w T Hl Htid He) as (ext & out & Hraise).
        rewrite Hraise in Hrun. discriminate Hrun. }
    destruct (clean_data_emptied l w T Hl He)
      as (l' & ext & out & Hrun' & _ & Hres).
    rewrite Hrun' in Hrun. injection Hrun as -> <-. cbn [heap].
    set (T2 := schema_hygiene_pass (completeness_pass T)) in *.
    set (w1 := mkWorld (heap w ++ ext) (stdout w ++ out)
                       (files w) (accounts w)).
    destruct (clean_data_emptied l1 w1 T2 Hres)
      as (l2 & ext2 & out2 & Hrun2 & Hle2 & Hres2).
    { unfold T2. by rewrite two_passes_fixed. }
    subst w1. cbn [heap] in Hle2, Hres2.
    eexists l2, _, T2. split; [exact Hrun2|]. cbn [heap].
    split; [exact Hres|].
    split; [|apply lookup_lt_Some in Hres; lia].
    rewrite Hres2. f_equal. unfold T2. by rewrite two_passes_fixed.
Qed.

Lemma clean_data_idempotent_witness :
  ∃ l2 w2 T1,
    clean_data 3%nat (snd (clean_data 0%nat (world_of example_raw)))
      = (Return l2, w2) ∧
    heap (snd (clean_data 0%nat (world_of example_raw))) !! 3%nat = Some T1 ∧
    heap w2 !! l2 = Some T1.
Proof.
  assert (clean_data 0%nat (world_of example_raw)
          = (Return 3%nat, snd (clean_data 0%nat (world_of example_raw))))
    as Hfirst by (vm_compute; reflexivity).
  destruct (clean_data_idempotent (world_of example_raw) _ 0%nat _ example_raw
              eq_refl Hfirst) as (l2 & w2 & T1 & Hrun & H1 & H2 & _).
  exists l2, w2, T1. split; [exact Hrun|]. split; [exact H1|exact H2].
Defined.

(** X8.  [clean_data] adds nothing and reorders nothing: the rows of the
    result are, in the input's order, some of the rows of the input (less
    their [index] cell), and its columns are the input's columns other than
    [index], in the input's order. *)
Theorem clean_data_sublist (w : World) (l : nat) (T : DataFrame) :
  heap w !! l = Some T →
  "track_id" ∈ columns T →
  ∃ l' w' res,
    clean_data l w = (Return l', w') ∧
    heap w' !! l' = Some res ∧
    rows res `sublist_of` (without_index T <$> rows T) ∧
    (length (rows res) ≤ length (rows T))%nat ∧
    columns res = filter (λ c, c ≠ "index") (columns T).
Proof.
  intros Hl Htid.
  destruct (clean_data_run l w T Hl Htid) as (l' & ext & Hrun & _ & Hres).
  eexists l', _, _. split; [exact Hrun|]. split; [exact Hres|].
  assert (rows (cleaned T) `sublist_of` (without_index T <$> rows T)) as Hsub.
  { unfold cleaned, deduplication_pass. cbn [rows]. rewrite hygiene_rows.
    etrans; [apply keep_first_sublist|].
    apply fmap_sublist, sublist_filter. }
  split; [exact Hsub|]. split.
  - apply sublist_length in Hsub. by rewrite length_fmap in Hsub.
  - unfold deduplication_pass, schema_hygiene_pass, completeness_pass.
    cbn [columns]. case_bool_decide as Hidx; cbn [columns].
    + apply list_filter_iff. intros c. rewrite list_elem_of_singleton. done.
    + symmetry. apply filter_all, Forall_forall. by intros c Hc ->.
Qed.

Lemma clean_data_sublist_witness :
  ∃ l' w' res,
    clean_data 0%nat (world_of example_raw) = (Return l', w') ∧
    heap w' !! l' = Some res ∧
    columns res = filter (λ c, c ≠ "index") (columns example_raw).
Proof.
  destruct (clean_data_sublist (world_of example_raw) 0%nat example_raw)
    as (l' & w' & res & Hrun & Hres & _ & _ & Hcols).
  - reflexivity.
  - apply (bool_decide_unpack _). vm_compute. exact I.
  - exists l', w', res. split; [exact Hrun|]. split; [exact Hres|exact Hcols].
Defined.

(** X9.  Every row of the input is accounted for: the rows with a missing
    value, the duplicates discarded after them and the rows of the result
    add up to the rows of the input. *)
Theorem clean_data_row_accounting (w : World) (l : nat) (T : DataFrame) :
  heap w !! l = Some T →
  "track_id" ∈ columns T →
  ∃ l' w' res,
    clean_data l w = (Return l', w') ∧
    heap w' !! l' = Some res ∧
    (length (filter (λ r, ¬ pd.complete (columns T) r) (rows T))
     + duplicate_count (schema_hygiene_pass (completeness_pass T))
     + length (rows res) = length (rows T))%nat.
Proof.
  intros Hl Htid.
  destruct (clean_data_run l w T Hl Htid) as (l' & ext & Hrun & _ & Hres).
  eexists l', _, _. split; [exact Hrun|]. split; [exact Hres|].
  pose proof (filter_partition_length
                (λ r, pd.complete (columns T) r) (rows T)) as Hpart.
  unfold duplicate_count.
  pose proof (keep_first_length ["track_id"] []
                (rows (schema_hygiene_pass (completeness_pass T)))) as Hle.
  unfold deduplication_pass at 1 2. cbn [rows].
  assert (length (rows (schema_hygiene_pass (completeness_pass T)))
          = length (filter (λ r, pd.complete (columns T) r) (rows T))) as Hlen
    by (by rewrite hygiene_rows, length_fmap).
  lia.
Qed.

Lemma clean_data_row_accounting_witness :
  ∃ l' w' res,
    clean_data 0%nat (world_of example_incomplete) = (Return l', w') ∧
    heap w' !! l' = Some res ∧
    (1 + 0 + length (rows res) = 2)%nat.
Proof.
  destruct (clean_data_row_accounting (world_of example_incomplete) 0%nat
              example_incomplete) as (l' & w' & res & Hrun & Hres & Hsum).
  - reflexivity.
  - apply (bool_decide_unpack _). vm_compute. exact I.
  - exists l', w', res. split; [exact Hrun|]. split; [exact Hres|].
    exact Hsum.
Defined.

(** ** More on [define_hit_songs] *)

Lemma gt_text s k :
  (∃ t, VStr t ∈ s) → pd.gt s k = Raise TypeError.
Proof.
  induction s as [|c s IH]; intros [t Ht].
  - by apply elem_of_nil in Ht.
  - simpl. destruct c as [t'|z|b|]; simpl; try done.
    all: apply elem_of_cons in Ht as [Ht|Ht]; [discriminate Ht|].
    all: by rewrite IH by (by exists t).
Qed.

(** X10.  When a popularity cell holds text, [define_hit_songs] raises
    [TypeError] and nothing has happened: no [is_hit] column is written, not
    even for the rows before the text, and nothing is printed. *)
Theorem define_hit_songs_text (w : World) (l : nat) (T : DataFrame)
    (k : option Z) :
  heap w !! l = Some T →
  "popularity" ∈ columns T →
  (∃ row t, row ∈ rows T ∧ cell_at row "popularity" = VStr t) →
  define_hit_songs l k w = (Raise TypeError, w).
Proof.
  intros Hl Hpop (row & t & Hrow & Ht).
  rewrite define_hit_songs_unfold, Hl, (bool_decide_true _ Hpop).
  rewrite gt_text; [done|].
  exists t. rewrite <- Ht.
  by apply (list_elem_of_fmap_2 (λ r, cell_at r "popularity")).
Qed.

Lemma define_hit_songs_text_witness :
  define_hit_songs 0%nat None (world_of example_text_popularity)
  = (Raise TypeError, world_of example_text_popularity).
Proof.
  apply (define_hit_songs_text (world_of example_text_popularity) 0%nat
           example_text_popularity None).
  - reflexivity.
  - apply (bool_decide_unpack _). vm_compute. exact I.
  - exists (row_of [("track_id", VStr "b"); ("popularity", VStr "high")]), "high".
    split; [|reflexivity]. right. by left.
Defined.

(** X11.  A higher threshold never makes a hit: labelling the same table
    with thresholds [k1 ≤ k2], every row that is a hit under [k2] is a hit
    under [k1]. *)
Theorem define_hit_songs_threshold_monotone (w w1 w2 : World) (l r1 r2 : nat)
    (T : DataFrame) (k1 k2 : Z) :
  heap w !! l = Some T →
  k1 ≤ k2 →
  define_hit_songs l (Some k1) w = (Return r1, w1) →
  define_hit_songs l (Some k2) w = (Return r2, w2) →
  ∃ T1 T2,
    heap w1 !! l = Some T1 ∧ heap w2 !! l = Some T2 ∧
    ∀ i row1 row2,
      rows T1 !! i = Some row1 → rows T2 !! i = Some row2 →
      cell_at row2 "is_hit" = VInt 1 → cell_at row1 "is_hit" = VInt 1.
Proof.
  intros Hl Hk Hrun1 Hrun2.
  destruct (define_hit_songs_inv _ _ _ _ _ Hrun1)
    as (T1 & mask1 & Hl1 & _ & Hgt1 & _ & Hheap1 & _).
  destruct (define_hit_songs_inv _ _ _ _ _ Hrun2)
    as (T2 & mask2 & Hl2 & _ & Hgt2 & _ & Hheap2 & _).
  assert (T1 = T) as -> by congruence. assert (T2 = T) as -> by congruence.
  simpl in Hgt1, Hgt2.
  exists (labelled T mask1), (labelled T mask2).
  split; [rewrite Hheap1; apply list_lookup_insert_eq; by eapply lookup_lt_Some|].
  split; [rewrite Hheap2; apply list_lookup_insert_eq; by eapply lookup_lt_Some|].
  intros i row1 row2 Hi1 Hi2.
  destruct (Forall2_lookup_r _ _ _ _ _ (labelled_rows _ _ _ Hgt1) Hi1)
    as (r & Hr & b1 & Hb1 & ->).
  destruct (Forall2_lookup_r _ _ _ _ _ (labelled_rows _ _ _ Hgt2) Hi2)
    as (r' & Hr' & b2 & Hb2 & ->).
  assert (r' = r) as -> by congruence.
  rewrite !cell_at_insert.
  destruct (cell_at r "popularity") as [t|z|b|]; simpl in Hb1, Hb2; try done.
  - injection Hb1 as <-. injection Hb2 as <-.
    destruct (k2 <? z) eqn:H2; [|done]. intros _.
    apply Z.ltb_lt in H2. assert ((k1 <? z) = true) as -> by (apply Z.ltb_lt; lia).
    done.
  - injection Hb1 as <-. injection Hb2 as <-.
    destruct (k2 <? Z.b2z b) eqn:H2; [|done]. intros _.
    apply Z.ltb_lt in H2.
    assert ((k1 <? Z.b2z b) = true) as -> by (apply Z.ltb_lt; lia). done.
  - by injection Hb2 as <-.
Qed.

Lemma define_hit_songs_threshold_monotone_witness :
  ∃ T1 T2,
    heap (snd (define_hit_songs 0%nat (Some 50) (world_of example_cleaned)))
      !! 0%nat = Some T1 ∧
    heap (snd (define_hit_songs 0%nat (Some 87) (world_of example_cleaned)))
      !! 0%nat = Some T2.
Proof.
  destruct (define_hit_songs_threshold_monotone (world_of example_cleaned)
              _ _ 0%nat _ _ example_cleaned 50 87 eq_refl
              ltac:(lia) eq_refl eq_refl) as (T1 & T2 & H1 & H2 & _).
  exists T1, T2. split; [exact H1|exact H2].
Defined.

(** The labelled table keeps what the table had of the post-clean
    conditions. *)
Lemma labelled_post_clean T k mask :
  pd.gt (fmap (λ r, cell_at r "popularity") (rows T)) k = Return mask →
  (no_missing T → no_missing (labelled T mask)) ∧
  (unique_track_ids T → unique_track_ids (labelled T mask)) ∧
  ("index" ∉ columns T → "index" ∉ columns (labelled T mask)).
Proof.
  intros Hgt. pose proof (labelled_rows _ _ _ Hgt) as HF.
  assert (∀ c, c ∈ columns (labelled T mask) → c = "is_hit" ∨ c ∈ columns T)
    as Hcols.
  { intros c. unfold labelled. cbn [columns]. case_bool_decide; [by right|].
    intros [Hc|Hc]%elem_of_app; [by right|].
    apply list_elem_of_singleton in Hc. by left. }
  split; [|split].
  - intros Hna row' c Hrow' Hc.
    apply list_elem_of_lookup in Hrow' as [i Hi].
    destruct (Forall2_lookup_r _ _ _ _ _ HF Hi) as (row & Hrow & b & _ & ->).
    destruct (decide (c = "is_hit")) as [->|Hne].
    + by rewrite cell_at_insert.
    + rewrite cell_at_insert_ne by done.
      apply Hna; [by eapply list_elem_of_lookup_2|].
      by destruct (Hcols c Hc).
  - unfold unique_track_ids.
    assert (track_id_of <$> rows (labelled T mask) = track_id_of <$> rows T)
      as ->; [|done].
    clear -HF. induction HF as [|row row' rs rs' (b & _ & ->) _ IH]; [done|].
    rewrite !fmap_cons, IH. f_equal.
    unfold track_id_of. by rewrite cell_at_insert_ne.
  - intros Hidx Hin. by destruct (Hcols _ Hin).
Qed.

(** X12.  Labelling keeps the post-clean conditions: when
    [define_hit_songs] returns, the labelled table has no missing value if
    the table had none, distinct [track_id]s if the table had, no [index]
    column if the table had none, and an [is_hit] column. *)
Theorem define_hit_songs_keeps_post_clean (w w' : World) (l r : nat)
    (k : option Z) (T : DataFrame) :
  heap w !! l = Some T →
  define_hit_songs l k w = (Return r, w') →
  ∃ T', heap w' !! l = Some T' ∧
    "is_hit" ∈ columns T' ∧
    (no_missing T → no_missing T') ∧
    (unique_track_ids T → unique_track_ids T') ∧
    ("index" ∉ columns T → "index" ∉ columns T').
Proof.
  intros Hl Hrun.
  destruct (define_hit_songs_inv _ _ _ _ _ Hrun)
    as (T0 & mask & Hl0 & _ & Hgt & _ & Hheap & _).
  assert (T0 = T) as -> by congruence.
  exists (labelled T mask).
  split; [rewrite Hheap; apply list_lookup_insert_eq; by eapply lookup_lt_Some|].
  split; [apply is_hit_in_labelled|].
  by apply (labelled_post_clean T (default 87 k)).
Qed.

Lemma define_hit_songs_keeps_post_clean_witness :
  ∃ T', heap (snd (define_hit_songs 0%nat None (world_of example_cleaned)))
          !! 0%nat = Some T' ∧
        "is_hit" ∈ columns T'.
Proof.
  destruct (define_hit_songs_keeps_post_clean (world_of example_cleaned) _
              0%nat _ None example_cleaned eq_refl eq_refl)
    as (T' & HT' & Hcol & _).
  exists T'. split; [exact HT'|exact Hcol].
Defined.

(** ** The dataset flow as a whole *)

Lemma cleaned_column T c :
  c ∈ columns T → c ≠ "index" → c ∈ columns (cleaned T).
Proof.
  intros Hc Hne. unfold cleaned, deduplication_pass, schema_hygiene_pass,
    completeness_pass. cbn [columns]. case_bool_decide; cbn [columns]; [|done].
  apply list_elem_of_filter. split; [|done].
  by rewrite list_elem_of_singleton.
Qed.

(** X13.  The three stages compose: when the file parses to a table with a
    [track_id] and a [popularity] column and no popularity cell is text,
    loading, cleaning and labelling in turn all return; the loaded table is
    still in the store as it was parsed; and the labelled table has no
    missing value, distinct [track_id]s, no [index] column, an [is_hit]
    column and no more rows than the file. *)
Theorem load_clean_label (w : World) (file_path : string) (T : DataFrame)
    (k : option Z) :
  files w !! file_path = Some (Parsed T) →
  "track_id" ∈ columns T →
  "popularity" ∈ columns T →
  (∀ row, row ∈ rows T → ∀ t, cell_at row "popularity" ≠ VStr t) →
  ∃ l0 w1 l1 w2 w3 T',
    load_spotify_dataset file_path w = (Return (Some l0), w1) ∧
    clean_data l0 w1 = (Return l1, w2) ∧
    define_hit_songs l1 k w2 = (Return l1, w3) ∧
    l0 ≠ l1 ∧
    heap w3 !! l0 = Some T ∧
    heap w3 !! l1 = Some T' ∧
    no_missing T' ∧ unique_track_ids T' ∧
    ("index" ∉ columns T') ∧ "is_hit" ∈ columns T' ∧
    (length (rows T') ≤ length (rows T))%nat.
Proof.
  intros Hf Htid Hpop Hnotext.
  pose proof (load_spotify_dataset_run file_path w) as Hload.
  rewrite Hf in Hload.
  set (w1 := mkWorld (heap w ++ [T])
               (stdout w ++ [ [Lit "Dataset '"; Str file_path;
                               Lit "' loaded successfully with ";
                               Len (length (rows T)); Lit " rows."] ])
               (files w) (accounts w)) in Hload.
  assert (heap w1 !! length (heap w) = Some T) as Hl0
    by (by apply list_lookup_middle).
  destruct (clean_data_run _ w1 T Hl0 Htid) as (l1 & ext & Hclean & Hle & Hres).
  fold (cleaned T) in Hres.
  set (w2 := mkWorld (heap w1 ++ ext) (stdout w1 ++ clean_report T)
                     (files w1) (accounts w1)) in Hclean.
  destruct (cleaned_post_clean T) as (Hna & Hidx & Huniq & Hfirst & _).
  destruct (gt_total (fmap (λ r, cell_at r "popularity") (rows (cleaned T)))
              (default 87 k)) as [mask Hmask].
  { apply Forall_fmap, Forall_forall. intros row' Hrow'.
    destruct (Hfirst row' Hrow') as (pre & row & post & Hsplit & -> & _).
    simpl. rewrite without_index_cell by (by intros _).
    apply Hnotext. rewrite Hsplit. apply elem_of_app. right. by left. }
  pose proof (define_hit_songs_unfold l1 k w2) as Hlabel.
  assert (heap w2 !! l1 = Some (cleaned T)) as Hl1 by exact Hres.
  rewrite Hl1, bool_decide_true, Hmask in Hlabel
    by (by apply cleaned_column).
  destruct (labelled_post_clean (cleaned T) (default 87 k) mask Hmask)
    as (Hna' & Huniq' & Hidx').
  assert (length (heap w) < l1)%nat as Hlt.
  { subst w1. cbn [heap] in Hle. rewrite length_app in Hle. simpl in Hle. lia. }
  eexists (length (heap w)), w1, l1, w2, _, (labelled (cleaned T) mask).
  split; [exact Hload|]. split; [exact Hclean|]. split; [exact Hlabel|].
  cbn [heap]. split; [lia|].
  split.
  { rewrite list_lookup_insert_ne by lia. subst w2. cbn [heap].
    rewrite lookup_app_l; [done|]. by eapply lookup_lt_Some. }
  split.
  { apply list_lookup_insert_eq. by eapply lookup_lt_Some. }
  split; [by apply Hna'|]. split; [by apply Huniq'|].
  split; [by apply Hidx'|]. split; [apply is_hit_in_labelled|].
  unfold labelled. cbn [rows].
  rewrite length_zip_with_l_eq.
  2:{ unfold pd.astype_int. rewrite length_fmap.
      rewrite (gt_length _ _ _ Hmask). by rewrite length_fmap. }
  unfold cleaned, deduplication_pass. cbn [rows].
  etrans; [apply keep_first_length|].
  rewrite hygiene_rows, length_fmap. apply length_filter.
Qed.

Lemma load_clean_label_witness :
  ∃ l0 w1 l1 w2 w3 T',
    load_spotify_dataset "raw.csv" world_with_raw = (Return (Some l0), w1) ∧
    clean_data l0 w1 = (Return l1, w2) ∧
    define_hit_songs l1 None w2 = (Return l1, w3) ∧
    heap w3 !! l1 = Some T' ∧ "is_hit" ∈ columns T'.
Proof.
  destruct (load_clean_label world_with_raw "raw.csv" example_raw None)
    as (l0 & w1 & l1 & w2 & w3 & T' & H1 & H2 & H3 & _ & _ & H4 & _ & _ & _ & H5 & _).
  - vm_compute. reflexivity.
  - apply (bool_decide_unpack _). vm_compute. exact I.
  - apply (bool_decide_unpack _). vm_compute. exact I.
  - intros row Hrow t. apply (bool_decide_unpack _). revert row Hrow.
    apply Forall_forall. vm_compute. repeat constructor.
  - exists l0, w1, l1, w2, w3, T'. repeat split; assumption.
Defined.
